(** * pygmid2aud: filename increment and capture orchestration

    A shallow embedding of [increment_fname.py] and [pygmid2aud.py], and the
    properties of the specification checked against it.

    Conventions of the embedding:
    - a Python [str] is a list of code points below 256 ([list ascii]);
    - Python integers are [Z];
    - a [while True] loop is a fuel-indexed [Fixpoint]; running out of fuel
      is the explicit outcome [OutOfFuel], so that "returns" and "never
      returns" are both statable;
    - exceptions are the [Raise] outcome of the [outcome] monad;
    - every external command, library call and [print] can fail: an oracle
      of the environment tells which ones do in a given run;
    - floating-point arithmetic is binary64; the last bit of
      [math.log10] is the C library's, so the comparison made with it is
      the one of exact integers where no rounding can change it, and a
      parameter of the embedding elsewhere. *)

From Stdlib Require Import ZArith List String Ascii Bool Lia.
From Stdlib Require Import DecimalString DecimalPos.
From Corelib Require Import SpecFloat.
From stdpp Require Import base strings gmap.
Import ListNotations.
Open Scope Z_scope.

(* ===================================================================== *)
(** * Part I: definitions                                                 *)
(* ===================================================================== *)

(** ** External collaborators

    Every command run through [subprocess] and every library call that
    touches the system is a [call]; the run keeps the list of calls it
    issued, in order.  [Print] stands for the write of a [print]: it can
    fail like a call (a closed or broken standard output), but what is kept
    of it is the line printed, not an entry in the list of calls. *)

Inductive call : Type :=
| DndStatus                                  (* do-not-disturb status *)
| DndOn                                      (* do-not-disturb on *)
| DndOff                                     (* do-not-disturb off *)
| PsAux                                      (* ps aux *)
| SwitchQuery                                (* SwitchAudioSource -c -t output *)
| SwitchSet (device : list ascii)            (* SwitchAudioSource -t output -s device *)
| Mkstemp (suffix : list ascii)              (* tempfile.mkstemp *)
| Input (prompt : list ascii)                (* input() *)
| MidiLength (midi_path : list ascii)        (* mido.MidiFile(path).length *)
| OpenStream                                 (* PyAudio().open(...) *)
| PygamePlay (midi_path : list ascii)        (* pygame.mixer init, load, play *)
| ProgressBar
| ClosePyaudio
| WriteWav (wav_path : list ascii)           (* wave.open(path, "wb") ... *)
| Makedirs (dir : list ascii)                (* os.makedirs *)
| Move (src dst : list ascii)                (* shutil.move *)
| Ffmpeg (overwrite : bool) (src dst : list ascii)
| Print.                                     (* a write to sys.stdout *)

#[global] Instance call_eq_dec : EqDecision call.
Proof. solve_decision. Defined.

(** ** Outcomes of Python computations *)

Inductive exn : Type :=
| ValueError
| ZeroDivisionError
| OverflowError
| NotImplementedError (msg : string)
| FileNotFoundError (path : list ascii)
| FileExistsError (path : list ascii)
| ShutilError (path : list ascii)
| CollaboratorError (c : call)   (* the error of a failed external call *)
| SystemExit (code : Z)
| Exception (msg : string).

Inductive outcome (A : Type) : Type :=
| Return (a : A)
| Raise (e : exn)
| OutOfFuel.

Arguments Return {A} a.
Arguments Raise {A} e.
Arguments OutOfFuel {A}.

Definition obind {A B} (m : outcome A) (k : A -> outcome B) : outcome B :=
  match m with
  | Return a => k a
  | Raise e => Raise e
  | OutOfFuel => OutOfFuel
  end.

(** The [x ← m; k] notation of stdpp sequences outcomes. *)
#[global] Instance outcome_bind : MBind outcome := fun A B k m => obind m k.
#[global] Instance outcome_ret : MRet outcome := fun A a => Return a.

(** ** Python strings *)

Module PyStr.

Abbreviation pystr := (list ascii).

(** A string literal as a Python [str]. *)
Definition py (s : string) : pystr := list_ascii_of_string s.

Definition code (c : ascii) : Z := Z.of_nat (nat_of_ascii c).

(** [c.isdecimal()]: below code point 256 the decimal digits are 0-9. *)
Definition is_digit (c : ascii) : bool :=
  (48 <=? code c) && (code c <=? 57).

(** The white space [int()] ignores around a literal, below code point
    256: TAB..CR, SPACE, NEL and NBSP.  (The separators FS..US, which
    [str.isspace] accepts, are not among them: [int("\x1f7")] raises.) *)
Definition is_space (c : ascii) : bool :=
  let n := code c in
  ((9 <=? n) && (n <=? 13)) || (n =? 32) || (n =? 133) || (n =? 160).

Definition digit_val (c : ascii) : Z := code c - 48.

(** [s[-k:]] for [k >= 1]: the last [k] characters, the whole string when
    [k] exceeds its length. *)
Definition last_chars (k : nat) (s : pystr) : pystr :=
  skipn (length s - k)%nat s.

(** [s[:-k]] for [k >= 1]: all but the last [k] characters. *)
Definition drop_last (k : nat) (s : pystr) : pystr :=
  firstn (length s - k)%nat s.

(** The stripping [int()] does before it parses. *)
Fixpoint lstrip (s : pystr) : pystr :=
  match s with
  | c :: t => if is_space c then lstrip t else s
  | [] => []
  end.

Definition strip (s : pystr) : pystr := rev (lstrip (rev (lstrip s))).

(** The digit part of an integer literal: [digit (["_"] digit)*].
    [prev] tells whether the previous character was a digit. *)
Fixpoint int_digits (acc : Z) (prev : bool) (s : pystr) : option Z :=
  match s with
  | [] => if prev then Some acc else None
  | c :: t =>
      if is_digit c then int_digits (10 * acc + digit_val c) true t
      else if Ascii.eqb c "_" && prev then int_digits acc false t
      else None
  end.

(** [int(s)] in base 10; [None] stands for [ValueError].  Surrounding
    white space is ignored, one sign is allowed, digits may be grouped by
    single underscores.  (The interpreter's limit on the number of digits
    of a literal is not modelled.) *)
Definition py_int (s : pystr) : option Z :=
  match strip s with
  | c :: t =>
      if Ascii.eqb c "+" then int_digits 0 false t
      else if Ascii.eqb c "-" then option_map Z.opp (int_digits 0 false t)
      else int_digits 0 false (c :: t)
  | [] => None
  end.

(** [str(n)] *)
Definition py_str (n : Z) : pystr :=
  py (NilZero.string_of_int (Z.to_int n)).

(** [s.zfill(width)]: zeros are inserted after a leading sign. *)
Definition zfill (s : pystr) (width : Z) : pystr :=
  let fill := repeat "0"%char (Z.to_nat (width - Z.of_nat (length s))) in
  match s with
  | c :: t =>
      if Ascii.eqb c "+" || Ascii.eqb c "-" then c :: fill ++ t
      else fill ++ s
  | [] => fill
  end.

(** [s.rfind(c)] for a one-character [c]: the last index, or -1. *)
Fixpoint rfind_from (c : ascii) (s : pystr) (i last : Z) : Z :=
  match s with
  | [] => last
  | x :: t => rfind_from c t (i + 1) (if Ascii.eqb x c then i else last)
  end.

Definition rfind (c : ascii) (s : pystr) : Z := rfind_from c s 0 (-1).

(** [p[a:b]] for [0 <= a]. *)
Definition slice (p : pystr) (a b : Z) : pystr :=
  firstn (Z.to_nat (b - a)) (skipn (Z.to_nat a) p).

(** [os.path.splitext] of posixpath: the extension starts at the last dot
    of the last component, leading dots of that component not counting. *)
Definition splitext (p : pystr) : pystr * pystr :=
  let sepIndex := rfind "/" p in
  let dotIndex := rfind "." p in
  if sepIndex <? dotIndex then
    if forallb (fun c => Ascii.eqb c ".") (slice p (sepIndex + 1) dotIndex)
    then (p, [])
    else (firstn (Z.to_nat dotIndex) p, skipn (Z.to_nat dotIndex) p)
  else (p, []).

(** [os.path.dirname] of posixpath. *)
Fixpoint rstrip_sep (r : pystr) : pystr :=
  match r with
  | c :: t => if Ascii.eqb c "/" then rstrip_sep t else r
  | [] => []
  end.

Definition dirname (p : pystr) : pystr :=
  let i := rfind "/" p + 1 in
  let head := firstn (Z.to_nat i) p in
  if forallb (fun c => Ascii.eqb c "/") head then head
  else rev (rstrip_sep (rev head)).

(** [s.endswith(suffix)] *)
Definition endswith (s suffix : pystr) : bool :=
  bool_decide (last_chars (length suffix) s = suffix)
  && (length suffix <=? length s)%nat.

(** The characters an integer literal may contain. *)
Definition int_char (c : ascii) : bool :=
  is_digit c || is_space c || Ascii.eqb c "+" || Ascii.eqb c "-"
  || Ascii.eqb c "_".

(** The last character of [s] exists and cannot occur in an integer
    literal (a letter, a dot, a slash, ...). *)
Definition ends_ordinary (s : pystr) : bool :=
  match rev s with
  | c :: _ => negb (int_char c)
  | [] => false
  end.

(** The last character of [s] is a decimal digit. *)
Definition ends_in_digit (s : pystr) : bool :=
  match rev s with
  | c :: _ => is_digit c
  | [] => false
  end.

End PyStr.

Import PyStr.

(** ** increment_fname.py *)

Module IncrementFname.

(** [math.log10(x) >= n] for integers [x >= 1] and [n].

    The code compares the binary64 logarithm of [x] with [n].  Below
    [10 ^ 14] that logarithm lies on the same side of every integer as the
    exact one (the integers next to a power of ten, [10 ^ k - 1] and
    [10 ^ k + 1], have logarithms more than two units in the last place
    away from [k], and a power of ten has the logarithm [k] itself), so the
    comparison is the one of exact integers.  From [10 ^ 14] on the rounding
    decides just below a power of ten ([math.log10(10 ** 15 - 1)] is
    [15.0]): there the answer is the one of the library, [log10_big x n]. *)
Definition log10_ge (log10_big : Z -> Z -> bool) (x n : Z) : bool :=
  if x <? 10 ^ 14 then 10 ^ n <=? x else log10_big x n.

Arguments log10_ge : simpl never.

(** The [while True] loop of [_get_int_at_end_of_string], from counter
    [i] on.  [n_digits] is the variable of the enclosing [_sub]. *)
Fixpoint get_int_loop (fuel : nat) (n_digits : Z) (string : pystr) (i : nat)
  : outcome (option Z * pystr * Z) :=
  match fuel with
  | O => OutOfFuel
  | S fuel' =>
      match py_int (last_chars (i + 1) string) with
      | Some _ => get_int_loop fuel' n_digits string (i + 1)
      | None =>
          if (i =? 0)%nat then Return (None, string, n_digits)
          else
            match py_int (last_chars i string) with
            | Some v => Return (Some v, drop_last i string, Z.of_nat i)
            | None => Raise ValueError
            end
      end
  end.

Definition _get_int_at_end_of_string (fuel : nat) (n_digits : Z)
    (string : pystr) : outcome (option Z * pystr * Z) :=
  get_int_loop fuel n_digits string 0.

Definition _sub (log10_big : Z -> Z -> bool) (fuel : nat)
    (allow_increase_n_digits : bool) (path : pystr) (n_digits : Z)
  : outcome pystr :=
  let '(root, ext) := splitext path in
  '(count, base_str, n_digits) ←
      _get_int_at_end_of_string fuel n_digits root;
  '(count, n_digits) ←
      match count with
      | None => Return (0, n_digits)
      | Some c =>
          if c <? 0 then Return (0, n_digits)
          else if log10_ge log10_big (c + 1) n_digits then
            if allow_increase_n_digits then Return (c, n_digits + 1)
            else Raise (NotImplementedError "Too many digits to increment")
          else Return (c, n_digits)
      end;
  let i_str := zfill (py_str (count + 1)) n_digits in
  Return (base_str ++ i_str ++ ext).

(** The outer [while True] loop; [exists_] is [os.path.exists] on the disk
    as it is during the call. *)
Fixpoint increment_loop (log10_big : Z -> Z -> bool) (fuel scan_fuel : nat)
    (exists_ : pystr -> bool) (path : pystr) (n_digits : Z)
    (overwrite allow_increase_n_digits : bool) : outcome pystr :=
  match fuel with
  | O => OutOfFuel
  | S fuel' =>
      path ← _sub log10_big scan_fuel allow_increase_n_digits path n_digits;
      if overwrite || negb (exists_ path) then Return path
      else increment_loop log10_big fuel' scan_fuel exists_ path n_digits
             overwrite allow_increase_n_digits
  end.

Definition increment_fname (log10_big : Z -> Z -> bool) (fuel : nat)
    (exists_ : pystr -> bool) (path : pystr) (n_digits : Z)
    (overwrite allow_increase_n_digits : bool) : outcome pystr :=
  increment_loop log10_big fuel fuel exists_ path n_digits overwrite
    allow_increase_n_digits.

End IncrementFname.

Import IncrementFname.

(** ** Python floats (binary64) *)

Module PyFloat.

Abbreviation float := spec_float.

Definition prec : Z := 53.
Definition emax : Z := 1024.

(** [float(z)], rounded to nearest even. *)
Definition of_int (z : Z) : float := binary_normalize prec emax z 0 false.

Definition fadd : float -> float -> float := SFadd prec emax.
Definition fmul : float -> float -> float := SFmul prec emax.
Definition fdiv : float -> float -> float := SFdiv prec emax.

(** [a / b] on Python integers (both converted exactly, which holds below
    2^53, then divided with one rounding). *)
Definition truediv (a b : Z) : outcome float :=
  if b =? 0 then Raise ZeroDivisionError
  else Return (fdiv (of_int a) (of_int b)).

(** [math.ceil(x)] *)
Definition math_ceil (x : float) : outcome Z :=
  match x with
  | S754_zero _ => Return 0
  | S754_finite s m e =>
      let v := if s then Z.neg m else Z.pos m in
      Return (if 0 <=? e then v * 2 ^ e else - ((- v) / 2 ^ (- e)))
  | S754_infinity _ => Raise OverflowError
  | S754_nan => Raise ValueError
  end.

End PyFloat.

(** ** The fragment of [re] used by the noisy-app check *)

Module PyRe.

(** Characters with a special meaning in a regular expression. *)
Definition re_special (c : ascii) : bool :=
  existsb (Ascii.eqb c) (py ".^$*+?{}[]\|()").

(** [c.lower()] below code point 256: A-Z and the Latin-1 capitals. *)
Definition lower (c : ascii) : ascii :=
  let n := code c in
  if ((65 <=? n) && (n <=? 90))
     || ((192 <=? n) && (n <=? 222) && negb (n =? 215))
  then ascii_of_nat (nat_of_ascii c + 32)
  else c.

(** An entry without any special character. *)
Definition plain (entry : pystr) : bool :=
  forallb (fun c => negb (re_special c)) entry.

(** Patterns of the modelled fragment: literal characters and the dot. *)
Inductive atom : Type :=
| Lit (c : ascii)
| AnyChar.

Fixpoint compile (pattern : pystr) : option (list atom) :=
  match pattern with
  | [] => Some []
  | c :: t =>
      match compile t with
      | Some atoms =>
          if Ascii.eqb c "." then Some (AnyChar :: atoms)
          else if re_special c then None
          else Some (Lit c :: atoms)
      | None => None
      end
  end.

(** Under [re.IGNORECASE] a literal matches up to case; without
    [re.DOTALL] the dot matches anything but a newline. *)
Definition atom_matches (a : atom) (c : ascii) : bool :=
  match a with
  | Lit x => Ascii.eqb (lower x) (lower c)
  | AnyChar => negb (Ascii.eqb c "010")
  end.

Fixpoint match_here (atoms : list atom) (text : pystr) : bool :=
  match atoms, text with
  | [], _ => true
  | a :: atoms', c :: text' => atom_matches a c && match_here atoms' text'
  | _ :: _, [] => false
  end.

Fixpoint search (atoms : list atom) (text : pystr) : bool :=
  match_here atoms text
  || match text with
     | [] => false
     | _ :: text' => search atoms text'
     end.

(** [bool(re.search(pattern, text, re.IGNORECASE))].  [re_other] is the
    library's answer ([re.error] included) on a pattern outside the
    modelled fragment. *)
Definition re_search_ignorecase (re_other : pystr -> pystr -> outcome bool)
    (pattern text : pystr) : outcome bool :=
  match compile pattern with
  | Some atoms => Return (search atoms text)
  | None => re_other pattern text
  end.

(** The specification's notion, in its own words: the entry occurs in the
    text as a literal substring, ignoring case. *)
Fixpoint is_prefix (s text : pystr) : bool :=
  match s, text with
  | [] , _ => true
  | x :: s', c :: text' => Ascii.eqb x c && is_prefix s' text'
  | _ :: _, [] => false
  end.

Definition occurs_ignoring_case (entry text : pystr) : bool :=
  existsb (fun k => is_prefix (map lower entry) (map lower (skipn k text)))
          (seq 0 (S (length text))).

End PyRe.

(** ** pygmid2aud.py *)

Module Pygmid2aud.

Import PyFloat PyRe.

Abbreviation bytes := (list ascii).

Definition CHUNK : Z := 1024.
Definition FORMAT : Z := 8.          (* pyaudio.paInt16 *)
Definition CHANNELS : Z := 2.
Definition RATE : Z := 44100.

Definition SOUNDFLOWER : pystr := py "Soundflower (2ch)".

(** *** The system the script acts on *)

Inductive content : Type :=
| Empty                                              (* as left by mkstemp *)
| Wav (channels sampwidth rate : Z) (data : bytes)
| Converted (src : content).                         (* written by ffmpeg *)

Inductive node : Type :=
| File (c : content)
| Dir.

#[global] Instance content_eq_dec : EqDecision content.
Proof. solve_decision. Defined.

#[global] Instance node_eq_dec : EqDecision node.
Proof. solve_decision. Defined.

(** One constructor for each [print] of the script. *)
Inductive message : Type :=
| MsgExistingDevice (device : pystr)
| MsgSwitching
| MsgRestoring (device : pystr)
| MsgDuration (dur : float)
| MsgProgressBar
| MsgOutputWritten (path : pystr)
| MsgConverting (path : pystr)
| MsgNoNoisyAppsFile
| MsgNoisyApps (open_apps : list pystr).

Record world : Type := mkWorld {
  output_device : pystr;          (* the active audio output device *)
  dnd : bool;                     (* notifications are suppressed *)
  fs : gmap pystr node;           (* the disk; paths are compared as written *)
  stdout : list message;          (* what was printed, oldest first *)
  calls : list call               (* external calls issued, oldest first *)
}.

(** What the run reads from its surroundings and does not change. *)
Record env : Type := mkEnv {
  noisy_apps_file : option pystr;       (* text of .noisy_apps, if present *)
  ps_aux : pystr;                       (* output of [ps aux] *)
  re_other : pystr -> pystr -> outcome bool;
  midi_length : float;                  (* duration of the MIDI file *)
  input_devices : list pystr;           (* names of the PyAudio devices *)
  stream_read : nat -> option bytes;    (* k-th read; [None]: it raises *)
  temp_name : pystr;                    (* the name mkstemp picks *)
  math_log10_big : Z -> Z -> bool;      (* [math.log10(x) >= n], x >= 10^14 *)
  fails : nat -> call -> bool;          (* injected failure of a call issued
                                           after [n] earlier calls *)
  fuel : nat                            (* bound on [while True] loops *)
}.

Definition prog (A : Type) : Type := world -> outcome A * world.

#[global] Instance prog_ret : MRet prog := fun A a w => (Return a, w).

#[global] Instance prog_bind : MBind prog := fun A B k m w =>
  match m w with
  | (Return a, w') => k a w'
  | (Raise e, w') => (Raise e, w')
  | (OutOfFuel, w') => (OutOfFuel, w')
  end.

Definition raise {A} (e : exn) : prog A := fun w => (Raise e, w).

(** A pure computation that may raise, run inside a program. *)
Definition lift {A} (o : outcome A) : prog A := fun w => (o, w).

Definition gets {A} (f : world -> A) : prog A := fun w => (Return (f w), w).

Definition modify (f : world -> world) : prog unit :=
  fun w => (Return tt, f w).

Definition set_device (d : pystr) (w : world) : world :=
  mkWorld d (dnd w) (fs w) (stdout w) (calls w).

Definition set_dnd (b : bool) (w : world) : world :=
  mkWorld (output_device w) b (fs w) (stdout w) (calls w).

Definition set_fs (m : gmap pystr node) (w : world) : world :=
  mkWorld (output_device w) (dnd w) m (stdout w) (calls w).

Definition add_stdout (line : message) (w : world) : world :=
  mkWorld (output_device w) (dnd w) (fs w) (stdout w ++ [line]) (calls w).

Definition add_call (c : call) (w : world) : world :=
  mkWorld (output_device w) (dnd w) (fs w) (stdout w) (calls w ++ [c]).

(** An external call: it is recorded, and it fails when a failure is
    injected at this point of the run.  Its effect on the system, if any,
    is applied by the caller after it succeeded. *)
Definition external (e : env) (c : call) : prog unit := fun w =>
  if fails e (length (calls w)) c
  then (Raise (CollaboratorError c), add_call c w)
  else (Return tt, add_call c w).

(** [print(line)]: the line is written, unless the write fails at this
    point of the run; then [print] raises and nothing is written. *)
Definition print (e : env) (line : message) : prog unit := fun w =>
  if fails e (length (calls w)) Print
  then (Raise (CollaboratorError Print), w)
  else (Return tt, add_stdout line w).

(** [os.path.exists] *)
Definition path_exists (w : world) (p : pystr) : bool :=
  bool_decide (is_Some (fs w !! p)).

(** [try: body / except: handler / else: orelse] with a bare [except]. *)
Definition try_except_else {A B} (body : prog A) (handler : exn -> prog B)
    (orelse : A -> prog B) : prog B := fun w =>
  match body w with
  | (Return a, w') => orelse a w'
  | (Raise ex, w') => handler ex w'
  | (OutOfFuel, w') => (OutOfFuel, w')
  end.

(** *** Device routing and notification suppression *)

Definition get_existing_output_device (e : env) : prog pystr :=
  external e SwitchQuery;;
  device ← gets output_device;
  print e (MsgExistingDevice device);;
  mret device.

Definition soundflower_on (e : env) : prog unit :=
  external e (SwitchSet SOUNDFLOWER);;
  modify (set_device SOUNDFLOWER);;
  print e MsgSwitching.

Definition soundflower_off (e : env) (orig_device : pystr) : prog unit :=
  external e (SwitchSet orig_device);;
  modify (set_device orig_device);;
  print e (MsgRestoring orig_device).

Definition dnd_off (e : env) : prog pystr :=
  external e DndStatus;;
  dnd_status ← gets (fun w => if dnd w then py "on" else py "off");
  (if bool_decide (dnd_status = py "off")
   then external e DndOn;; modify (set_dnd true)
   else mret tt);;
  mret dnd_status.

Definition restore_dnd (e : env) (orig_status : pystr) : prog unit :=
  if bool_decide (orig_status = py "off")
  then external e DndOff;; modify (set_dnd false)
  else mret tt.

(** *** The noisy-app check *)

(** [s.split("\n")] *)
Fixpoint split_lines (s : pystr) : list pystr :=
  match s with
  | [] => [[]]
  | c :: t =>
      if Ascii.eqb c "010" then [] :: split_lines t
      else match split_lines t with
           | l :: ls => (c :: l) :: ls
           | [] => [[c]]
           end
  end.

Definition nonempty (s : pystr) : bool :=
  match s with [] => false | _ :: _ => true end.

(** The loop collecting [open_apps]. *)
Fixpoint find_open_apps (e : env) (apps : list pystr) (ps_result : pystr)
  : outcome (list pystr) :=
  match apps with
  | [] => Return []
  | app :: rest =>
      found ← re_search_ignorecase (re_other e) app ps_result;
      open_apps ← find_open_apps e rest ps_result;
      Return (if found : bool then app :: open_apps else open_apps)
  end.

Definition check_for_noisy_apps (e : env) : prog unit :=
  match noisy_apps_file e with
  | None =>
      print e MsgNoNoisyAppsFile;;
      external e (Input (py "<press enter to continue>"))
  | Some text =>
      let apps := List.filter nonempty (split_lines text) in
      external e PsAux;;
      open_apps ← lift (find_open_apps e apps (ps_aux e));
      match open_apps with
      | [] => mret tt
      | _ :: _ => print e (MsgNoisyApps open_apps);; raise (SystemExit 1)
      end
  end.

(** *** Capture *)

Definition get_dur (e : env) (midi_path : pystr) : prog float :=
  external e (MidiLength midi_path);;
  let dur := midi_length e in
  print e (MsgDuration dur);;
  mret dur.

Definition pygame_play (e : env) (midi_path : pystr) : prog unit :=
  external e (PygamePlay midi_path).

Fixpoint index_of (name : pystr) (devices : list pystr) (i : nat)
  : option nat :=
  match devices with
  | [] => None
  | d :: rest =>
      if bool_decide (d = name) then Some i else index_of name rest (S i)
  end.

Definition _get_soundflower_index (e : env) : outcome nat :=
  match index_of SOUNDFLOWER (input_devices e) 0 with
  | Some i => Return i
  | None => Raise (Exception "Soundflower not found!")
  end.

(** The stream is identified by the index of its input device. *)
Definition get_pyaudio_and_stream (e : env)
    (format_ channels rate frames_per_buffer : Z) : prog nat :=
  input_device_index ← lift (_get_soundflower_index e);
  external e OpenStream;;
  mret input_device_index.

(** [math.ceil(rate / frames_per_buffer * (dur + extra_dur))] *)
Definition frame_count (rate : Z) (dur : float)
    (frames_per_buffer extra_dur : Z) : outcome Z :=
  q ← truediv rate frames_per_buffer;
  math_ceil (fmul q (fadd dur (of_int extra_dur))).

(** [ceil(a / b)] on exact integers, for [b > 0]. *)
Definition ceil_div (a b : Z) : Z := - ((- a) / b).

(** The frame count in the words of the specification,
    [ceil(sampleRate / framesPerBuffer * (duration + tailSlack))], taken in
    exact arithmetic on the value of a finite duration. *)
Definition exact_frame_count (rate : Z) (dur : float)
    (frames_per_buffer extra_dur : Z) : option Z :=
  match dur with
  | S754_zero _ => Some (ceil_div (rate * extra_dur) frames_per_buffer)
  | S754_finite s m e =>
      let v := if s then Z.neg m else Z.pos m in
      if 0 <=? e
      then Some (ceil_div (rate * (v * 2 ^ e + extra_dur)) frames_per_buffer)
      else Some (ceil_div (rate * (v + extra_dur * 2 ^ (- e)))
                   (frames_per_buffer * 2 ^ (- e)))
  | _ => None
  end.

(** The code's count and the exact one agree at the duration of [d] whole
    seconds, with the value [ceil(rate * (d + extra_dur) /
    frames_per_buffer)]. *)
Definition frame_count_exact_at (rate frames_per_buffer extra_dur d : Z)
  : bool :=
  match frame_count rate (of_int d) frames_per_buffer extra_dur,
        exact_frame_count rate (of_int d) frames_per_buffer extra_dur with
  | Return n, Some n' =>
      (n =? n')
      && (n =? ceil_div (rate * (d + extra_dur)) frames_per_buffer)
  | _, _ => false
  end.

(** [f] holds at the [n] integers from [d] on. *)
Fixpoint all_from (f : Z -> bool) (n : nat) (d : Z) : bool :=
  match n with
  | O => true
  | S n' => f d && all_from f n' (d + 1)
  end.

(** The body of [get_frames]: [n] iterations left, [k] reads made so far.
    The result is the list of frames and the number of [stream.read] calls
    made.  A read that raises ends the thread. *)
Fixpoint read_loop (n : nat) (read : nat -> option bytes) (k : nat)
    (frames : list bytes) : list bytes * nat :=
  match n with
  | O => (frames, k)
  | S n' =>
      match read k with
      | Some chunk => read_loop n' read (S k) (frames ++ [chunk])
      | None => (frames, S k)
      end
  end.

(** The capture thread.  An exception in it ends the thread and is not
    seen by the thread that joins it. *)
Definition get_frames (read : nat -> option bytes) (rate : Z) (dur : float)
    (frames_per_buffer : Z) (frames : list bytes) (extra_dur : Z)
  : list bytes * nat :=
  match frame_count rate dur frames_per_buffer extra_dur with
  | Return n => read_loop (Z.to_nat n) read 0 frames
  | _ => (frames, 0%nat)
  end.

Definition close_pyaudio (e : env) : prog unit := external e ClosePyaudio.

Definition progress_bar (e : env) (dur : float) : prog unit :=
  external e ProgressBar;;
  print e MsgProgressBar.

(** [py_audio.get_sample_size(format_)] *)
Definition get_sample_size (format_ : Z) : outcome Z :=
  if format_ =? 1 then Return 4        (* paFloat32 *)
  else if format_ =? 2 then Return 4   (* paInt32 *)
  else if format_ =? 4 then Return 3   (* paInt24 *)
  else if format_ =? 8 then Return 2   (* paInt16 *)
  else if format_ =? 16 then Return 1  (* paInt8 *)
  else if format_ =? 32 then Return 1  (* paUInt8 *)
  else Raise ValueError.

Definition put_file (p : pystr) (c : content) : prog unit :=
  modify (fun w => set_fs (<[p := File c]> (fs w)) w).

Definition write_wav (e : env) (frames : list bytes) (wav_path : pystr)
    (format_ channels rate : Z) : prog unit :=
  external e (WriteWav wav_path);;
  put_file wav_path Empty;;
  sampwidth ← lift (get_sample_size format_);
  put_file wav_path (Wav channels sampwidth rate (concat frames)).

Definition record (e : env) (midi_path temp_out_path : pystr)
    (format_ channels rate frames_per_buffer : Z) : prog bool :=
  dur ← get_dur e midi_path;
  let frames := [] in
  stream ← get_pyaudio_and_stream e format_ channels rate frames_per_buffer;
  (* recording_thread.start() *)
  pygame_play e midi_path;;
  progress_bar e dur;;
  (* recording_thread.join() *)
  let frames :=
    fst (get_frames (stream_read e) rate dur frames_per_buffer frames 1) in
  close_pyaudio e;;
  if negb (bool_decide (frames = [])) then
    write_wav e frames temp_out_path format_ channels rate;;
    mret true
  else mret false.

(** *** Output *)

(** [os.path.basename] and [os.path.join] of posixpath. *)
Definition basename (p : pystr) : pystr :=
  skipn (Z.to_nat (rfind "/" p + 1)) p.

Definition join (a b : pystr) : pystr :=
  match b with
  | c :: _ =>
      if Ascii.eqb c "/" then b
      else if bool_decide (a = []) || endswith a (py "/") then a ++ b
      else a ++ py "/" ++ b
  | [] =>
      if bool_decide (a = []) || endswith a (py "/") then a
      else a ++ py "/"
  end.

(** [os.makedirs(d)]; the intermediate directories are not tracked. *)
Definition makedirs (e : env) (d : pystr) : prog unit :=
  external e (Makedirs d);;
  w ← gets id;
  if bool_decide (d = []) then raise (FileNotFoundError d)
  else if path_exists w d then raise (FileExistsError d)
  else modify (set_fs (<[d := Dir]> (fs w))).

(** [shutil.move(src, dst)]: into [dst] when it is a directory, else a
    rename, which replaces an existing file. *)
Definition shutil_move (e : env) (src dst : pystr) : prog unit :=
  external e (Move src dst);;
  w ← gets id;
  match fs w !! src with
  | None => raise (FileNotFoundError src)
  | Some n =>
      match fs w !! dst with
      | Some Dir =>
          let real_dst := join dst (basename (rev (rstrip_sep (rev src)))) in
          if path_exists w real_dst then raise (ShutilError real_dst)
          else modify (set_fs (<[real_dst := n]> (delete src (fs w))))
      | _ => modify (set_fs (<[dst := n]> (delete src (fs w))))
      end
  end.

(** [ffmpeg -y|-n -i src dst], run with [check=True]. *)
Definition ffmpeg (e : env) (overwrite : bool) (src dst : pystr)
  : prog unit :=
  external e (Ffmpeg overwrite src dst);;
  w ← gets id;
  match fs w !! src with
  | Some (File (Wav ch sw r d)) =>
      if negb overwrite && path_exists w dst
      then raise (CollaboratorError (Ffmpeg overwrite src dst))
      else put_file dst (Converted (Wav ch sw r d))
  | _ => raise (CollaboratorError (Ffmpeg overwrite src dst))
  end.

Definition write_to_output_path (e : env) (midi_path : pystr)
    (output_path : option pystr) (temp_out_path : pystr) (overwrite : bool)
  : prog unit :=
  let output_path :=
    match output_path with
    | None => fst (splitext midi_path) ++ py ".m4a"
    | Some p => p
    end in
  w ← gets id;
  (if negb (path_exists w (dirname output_path))
   then makedirs e (dirname output_path)
   else mret tt);;
  if endswith output_path (py ".wav") then
    shutil_move e temp_out_path output_path;;
    print e (MsgOutputWritten output_path)
  else
    w ← gets id;
    output_path ←
      (if negb overwrite
       then lift (increment_fname (math_log10_big e) (fuel e)
                    (path_exists w) output_path 2 false true)
       else mret output_path);
    print e (MsgConverting output_path);;
    ffmpeg e overwrite temp_out_path output_path.

(** *** The session *)

(** [tempfile.mkstemp(suffix=...)]: the file is created, empty.  A taken
    name stands for the exhaustion of the candidate names. *)
Definition mkstemp (e : env) (suffix : pystr) : prog pystr :=
  external e (Mkstemp suffix);;
  let path := temp_name e ++ suffix in
  w ← gets id;
  if path_exists w path then raise (FileExistsError path)
  else put_file path Empty;; mret path.

(** The command line: a MIDI path, [-o], [--overwrite]. *)
Record args : Type := mkArgs {
  arg_midi_path : pystr;
  arg_output_path : option pystr;
  arg_overwrite : bool
}.

Definition get_args (a : args)
  : pystr * option pystr * bool * Z * Z * Z * Z :=
  (arg_midi_path a, arg_output_path a, arg_overwrite a,
   FORMAT, CHANNELS, RATE, CHUNK).

Definition main (e : env) (a : args) : prog unit :=
  let '(midi_path, output_path, overwrite, format_, channels, rate,
        frames_per_buffer) := get_args a in
  orig_dnd_status ← dnd_off e;
  check_for_noisy_apps e;;
  temp_out_path ← mkstemp e (py ".wav");
  orig_device ← get_existing_output_device e;
  soundflower_on e;;
  try_except_else
    (record e midi_path temp_out_path format_ channels rate
       frames_per_buffer)
    (fun ex =>
       soundflower_off e orig_device;;
       restore_dnd e orig_dnd_status;;
       raise ex)
    (fun result =>
       soundflower_off e orig_device;;
       restore_dnd e orig_dnd_status;;
       if result : bool then
         write_to_output_path e midi_path output_path temp_out_path overwrite
       else mret tt).

(** *** Observations on runs *)

(** The calls that restore the system: setting the audio output device,
    and switching do-not-disturb off. *)
Definition restores (c : call) : Prop :=
  match c with
  | SwitchSet _ | DndOff => True
  | _ => False
  end.

(** The lines that announce a switch of the audio output device. *)
Definition announces (line : message) : Prop :=
  match line with
  | MsgSwitching | MsgRestoring _ => True
  | _ => False
  end.

(** The calls issued between [w] and [w'], none of which satisfies [P]. *)
Definition issued_none (P : call -> Prop) (w w' : world) : Prop :=
  exists l, calls w' = calls w ++ l /\ Forall (fun c => ~ P c) l.

(** The lines printed between [w] and [w'], none of which satisfies [Q]. *)
Definition printed_none (Q : message -> Prop) (w w' : world) : Prop :=
  exists out, stdout w' = stdout w ++ out /\ Forall (fun m => ~ Q m) out.

(** Between [w] and [w'] the audio output device was left alone, no
    restoring call was issued and no switch was announced. *)
Definition untouched (w w' : world) : Prop :=
  output_device w' = output_device w
  /\ issued_none restores w w'
  /\ printed_none announces w w'.

(** A program that does all this and leaves the suppression state alone
    as well. *)
Definition discreet {A} (m : prog A) : Prop :=
  forall w, untouched w (snd (m w)) /\ dnd (snd (m w)) = dnd w.

(** A program without unbounded loop: it never runs out of fuel. *)
Definition halts {A} (m : prog A) : Prop :=
  forall w, fst (m w) <> OutOfFuel.

End Pygmid2aud.

(** ** Scenarios

    Concrete surroundings and command lines on which the script is run
    below. *)

Module Scenarios.

Import PyFloat PyRe Pygmid2aud.

Definition BUILTIN : pystr := py "Built-in Output".

(** A machine with Soundflower installed, a denylist naming Zoom and Slack,
    neither of them running, a five-second MIDI file, a stream that delivers
    every chunk, and no failing collaborator. *)
Definition calm : env := {|
  noisy_apps_file := Some (py "Zoom" ++ ["010"%char] ++ py "Slack"
                             ++ ["010"%char]);
  ps_aux := py "root 1 /sbin/launchd" ++ ["010"%char]
              ++ py "me 77 /usr/bin/python3 pygmid2aud.py";
  re_other := fun _ _ => Raise (Exception "re.error");
  midi_length := of_int 5;
  input_devices := [py "Built-in Microphone"; SOUNDFLOWER];
  stream_read := fun _ => Some (py "ab");
  temp_name := py "/tmp/tmpq1w2e3";
  math_log10_big := fun x n => 10 ^ n <=? x;
  fails := fun _ _ => false;
  fuel := 8
|}.

Definition with_ps (ps : pystr) (e : env) : env :=
  mkEnv (noisy_apps_file e) ps (re_other e) (midi_length e) (input_devices e)
    (stream_read e) (temp_name e) (math_log10_big e) (fails e) (fuel e).

Definition with_devices (devices : list pystr) (e : env) : env :=
  mkEnv (noisy_apps_file e) (ps_aux e) (re_other e) (midi_length e) devices
    (stream_read e) (temp_name e) (math_log10_big e) (fails e) (fuel e).

Definition with_stream (read : nat -> option bytes) (e : env) : env :=
  mkEnv (noisy_apps_file e) (ps_aux e) (re_other e) (midi_length e)
    (input_devices e) read (temp_name e) (math_log10_big e) (fails e)
    (fuel e).

Definition with_fails (f : nat -> call -> bool) (e : env) : env :=
  mkEnv (noisy_apps_file e) (ps_aux e) (re_other e) (midi_length e)
    (input_devices e) (stream_read e) (temp_name e) (math_log10_big e) f
    (fuel e).

(** Zoom is running. *)
Definition zoom_running : env :=
  with_ps (py "root 1 /sbin/launchd" ++ ["010"%char]
             ++ py "me 300 /Applications/zoom.us.app/Contents/MacOS/zoom.us")
    calm.

(** The input device fails at once: the first read raises. *)
Definition dead_stream : env := with_stream (fun _ => None) calm.

(** Soundflower is missing among the input devices, so [record] raises, and
    switching the output back to the original device fails as well. *)
Definition restore_fails : env :=
  with_fails (fun _ c => bool_decide (c = SwitchSet BUILTIN))
    (with_devices [py "Built-in Microphone"] calm).

(** Soundflower is missing among the input devices; nothing else fails. *)
Definition record_fails : env := with_devices [py "Built-in Microphone"] calm.

(** Everything works except switching do-not-disturb off again. *)
Definition dnd_stuck : env :=
  with_fails (fun _ c => bool_decide (c = DndOff)) calm.

(** Everything works except the line announcing the switch to Soundflower,
    printed when six calls have been issued. *)
Definition announce_fails : env :=
  with_fails (fun n c => bool_decide (c = Print) && (n =? 6)%nat) calm.

(** A duration just above 0.0216780045 s, at which the product
    [rate / frames_per_buffer * (dur + 1)] is rounded down to 44. *)
Definition rounded_duration : float :=
  S754_finite false 6248259401384046 (-58).

(** Notifications are not suppressed, the built-in output is active. *)
Definition desk : world := {|
  output_device := BUILTIN;
  dnd := false;
  fs := {[ py "/tmp" := Dir; py "/music" := Dir;
           py "/music/take.wav" := File (Wav 2 2 44100 (py "old")) ]};
  stdout := [];
  calls := []
|}.

(** Notifications are suppressed already. *)
Definition hushed : world := {|
  output_device := BUILTIN;
  dnd := true;
  fs := {[ py "/tmp" := Dir; py "/music" := Dir ]};
  stdout := [];
  calls := []
|}.

(** The same disk once a capture has been written to the temporary file. *)
Definition captured : world := {|
  output_device := BUILTIN;
  dnd := false;
  fs := {[ py "/tmp" := Dir; py "/music" := Dir;
           py "/music/take.wav" := File (Wav 2 2 44100 (py "old"));
           py "/tmp/tmpq1w2e3.wav" := File (Wav 2 2 44100 (py "abab")) ]};
  stdout := [];
  calls := []
|}.

Definition to_m4a : args := mkArgs (py "/music/song.mid") None false.

Definition to_wav : args :=
  mkArgs (py "/music/song.mid") (Some (py "/music/take.wav")) false.

End Scenarios.

(* ===================================================================== *)
(** * Part II: properties                                                 *)
(* ===================================================================== *)

(** ** Characters and integer literals *)

Section IntLiterals.

Lemma digit_not_space c : is_digit c = true -> is_space c = false.
Proof.
  destruct c as [b0 b1 b2 b3 b4 b5 b6 b7].
  destruct b0, b1, b2, b3, b4, b5, b6, b7;
    vm_compute; intros H; try reflexivity; discriminate H.
Qed.

Lemma digit_not_sign c :
  is_digit c = true -> Ascii.eqb c "+" = false /\ Ascii.eqb c "-" = false.
Proof.
  intros H. split; apply Ascii.eqb_neq; intros ->; vm_compute in H;
    discriminate.
Qed.

(** A single character that is not a digit is not an integer literal. *)
Lemma py_int_single_nondigit c : is_digit c = false -> py_int [c] = None.
Proof.
  destruct c as [b0 b1 b2 b3 b4 b5 b6 b7].
  destruct b0, b1, b2, b3, b4, b5, b6, b7;
    vm_compute; intros H; try reflexivity; discriminate H.
Qed.

Lemma lstrip_digit_head c t : is_digit c = true -> lstrip (c :: t) = c :: t.
Proof. intros H. simpl. now rewrite (digit_not_space c H). Qed.

Lemma forallb_rev {A} (f : A -> bool) l :
  forallb f (rev l) = forallb f l.
Proof.
  induction l as [|a l IH]; simpl; [reflexivity|].
  rewrite forallb_app, IH. simpl. rewrite andb_true_r. apply andb_comm.
Qed.

Lemma strip_all_digits s : forallb is_digit s = true -> strip s = s.
Proof.
  intros H. unfold strip.
  assert (Hl : forall u, forallb is_digit u = true -> lstrip u = u).
  { intros [|c u] Hu; [reflexivity|]. simpl in Hu.
    apply andb_true_iff in Hu as [Hc _]. now apply lstrip_digit_head. }
  rewrite (Hl s H), Hl, rev_involutive; [reflexivity|].
  now rewrite forallb_rev.
Qed.

Lemma int_digits_all_digits s : forall acc prev,
  forallb is_digit s = true -> s <> [] \/ prev = true ->
  exists v, int_digits acc prev s = Some v.
Proof.
  induction s as [|c t IH]; intros acc prev Hd Hne.
  - destruct Hne as [Hne | ->]; [congruence | simpl; eauto].
  - simpl in *. apply andb_true_iff in Hd as [Hc Ht]. rewrite Hc.
    apply IH; auto.
Qed.

(** A non-empty string of digits is an integer literal. *)
Lemma py_int_all_digits s :
  s <> [] -> forallb is_digit s = true -> exists v, py_int s = Some v.
Proof.
  intros Hne Hd. unfold py_int. rewrite (strip_all_digits s Hd).
  destruct s as [|c t]; [congruence|].
  pose proof Hd as Hd'. simpl in Hd'. apply andb_true_iff in Hd' as [Hc _].
  destruct (digit_not_sign c Hc) as [-> ->].
  apply int_digits_all_digits; auto.
Qed.

End IntLiterals.

(** ** The trailing-digit scan *)

Section Scan.

Lemma last_chars_length k (s : pystr) :
  length (last_chars k s) = Nat.min k (length s).
Proof. unfold last_chars. rewrite length_skipn. lia. Qed.

Lemma last_chars_all_digits k s :
  forallb is_digit s = true -> forallb is_digit (last_chars k s) = true.
Proof.
  intros H. unfold last_chars.
  rewrite <- (firstn_skipn (length s - k) s), forallb_app in H.
  now apply andb_true_iff in H as [_ H].
Qed.

Lemma last_chars_nonempty k s : s <> [] -> last_chars (k + 1) s <> [].
Proof.
  intros Hs Hk. apply (f_equal (@length ascii)) in Hk.
  rewrite last_chars_length in Hk. simpl in Hk.
  destruct s; [congruence | simpl in Hk; lia].
Qed.

Lemma last_chars_1_nondigit s :
  ends_in_digit s = false -> py_int (last_chars 1 s) = None.
Proof.
  destruct (rev s) as [|c r] eqn:E; unfold ends_in_digit; rewrite E.
  - apply (f_equal (@rev ascii)) in E. rewrite rev_involutive in E.
    subst s. reflexivity.
  - intros Hc. apply (f_equal (@rev ascii)) in E.
    rewrite rev_involutive in E. simpl in E. subst s.
    unfold last_chars. rewrite length_app. simpl.
    replace (length (rev r) + 1 - 1)%nat with (length (rev r) + 0)%nat by lia.
    rewrite skipn_app, Nat.add_0_r, skipn_all.
    replace (length (rev r) - length (rev r))%nat with 0%nat by lia.
    simpl. now apply py_int_single_nondigit.
Qed.

(** On a non-empty stem made of digits only, every suffix the loop tries
    parses, the slice saturating at the whole stem: the loop never leaves. *)
Lemma get_int_loop_all_digits s :
  s <> [] -> forallb is_digit s = true ->
  forall fuel n_digits i, get_int_loop fuel n_digits s i = OutOfFuel.
Proof.
  intros Hne Hd fuel. induction fuel as [|fuel IH]; intros n i; simpl.
  - reflexivity.
  - destruct (py_int_all_digits (last_chars (i + 1) s)) as [v ->].
    + now apply last_chars_nonempty.
    + now apply last_chars_all_digits.
    + apply IH.
Qed.

(** As soon as some suffix does not parse, the loop leaves: [k + 1] units
    of fuel suffice when the suffix of length [i + k + 1] is the first to
    fail. *)
Lemma get_int_loop_returns k : forall n_digits s i,
  py_int (last_chars (i + k + 1) s) = None ->
  get_int_loop (S k) n_digits s i <> OutOfFuel.
Proof.
  induction k as [|k IH]; intros n s i H.
  - simpl. rewrite Nat.add_0_r in H. rewrite H.
    destruct (i =? 0)%nat; [discriminate|].
    destruct (py_int (last_chars i s)); discriminate.
  - change (get_int_loop (S (S k)) n s i)
      with (match py_int (last_chars (i + 1) s) with
            | Some _ => get_int_loop (S k) n s (i + 1)
            | None =>
                if (i =? 0)%nat then Return (None, s, n)
                else match py_int (last_chars i s) with
                     | Some v => Return (Some v, drop_last i s, Z.of_nat i)
                     | None => Raise ValueError
                     end
            end).
    destruct (py_int (last_chars (i + 1) s)).
    + apply IH. now replace (i + 1 + k + 1)%nat with (i + S k + 1)%nat by lia.
    + destruct (i =? 0)%nat; [discriminate|].
      destruct (py_int (last_chars i s)); discriminate.
Qed.

(** More fuel does not change a result. *)
Lemma get_int_loop_mono fuel : forall fuel' n s i r,
  get_int_loop fuel n s i = r -> r <> OutOfFuel -> (fuel <= fuel')%nat ->
  get_int_loop fuel' n s i = r.
Proof.
  induction fuel as [|fuel IH]; intros fuel' n s i r H Hr Hle.
  - simpl in H. congruence.
  - destruct fuel' as [|fuel']; [lia|]. simpl in *.
    destruct (py_int (last_chars (i + 1) s)); [|exact H].
    apply IH; auto. lia.
Qed.

(** The loop keeps the invariant that the last [i] characters parse; what
    it returns when it found digits is that suffix, split off. *)
Lemma get_int_loop_found fuel : forall n s i c b w,
  (i = 0%nat \/ exists v, py_int (last_chars i s) = Some v) ->
  get_int_loop fuel n s i = Return (Some c, b, w) ->
  exists k, w = Z.of_nat k /\ (1 <= k <= length s)%nat /\
            b = drop_last k s /\ py_int (last_chars k s) = Some c.
Proof.
  induction fuel as [|fuel IH]; intros n s i c b w Hinv H; simpl in H.
  - discriminate.
  - destruct (py_int (last_chars (i + 1) s)) as [v|] eqn:E.
    + apply IH in H; auto. right. eauto.
    + destruct (i =? 0)%nat eqn:Ei; [discriminate|].
      apply Nat.eqb_neq in Ei.
      destruct Hinv as [->|[v Hv]]; [congruence|].
      rewrite Hv in H. injection H as <- <- <-.
      exists i. repeat split; auto; try lia.
      destruct (Nat.le_gt_cases i (length s)) as [|Hgt]; [assumption|].
      exfalso. unfold last_chars in *.
      replace (length s - (i + 1))%nat with 0%nat in E by lia.
      replace (length s - i)%nat with 0%nat in Hv by lia. congruence.
Qed.

(** Once the last character parsed, the result does not depend on the
    minimum digit width. *)
Lemma get_int_loop_n_digits fuel : forall n n' s i,
  (1 <= i)%nat -> get_int_loop fuel n s i = get_int_loop fuel n' s i.
Proof.
  induction fuel as [|fuel IH]; intros n n' s i Hi; simpl; [reflexivity|].
  destruct (py_int (last_chars (i + 1) s)).
  - apply IH. lia.
  - destruct (i =? 0)%nat eqn:E; [apply Nat.eqb_eq in E; lia | reflexivity].
Qed.

Lemma scan_n_digits fuel n n' s :
  ends_in_digit s = true ->
  _get_int_at_end_of_string fuel n s = _get_int_at_end_of_string fuel n' s.
Proof.
  intros Hd. unfold _get_int_at_end_of_string.
  destruct fuel as [|fuel]; [reflexivity|]. simpl.
  destruct (py_int (last_chars 1 s)) eqn:E.
  - apply get_int_loop_n_digits. lia.
  - exfalso. unfold ends_in_digit in Hd.
    destruct (rev s) as [|c r] eqn:Er; [discriminate|].
    apply (f_equal (@rev ascii)) in Er. rewrite rev_involutive in Er.
    simpl in Er. subst s.
    destruct (py_int_all_digits (last_chars 1 (rev r ++ [c]))) as [v Hv].
    + apply (last_chars_nonempty 0). now destruct (rev r).
    + unfold last_chars. rewrite length_app. simpl.
      replace (length (rev r) + 1 - 1)%nat with (length (rev r) + 0)%nat
        by lia.
      rewrite skipn_app, Nat.add_0_r, skipn_all.
      replace (length (rev r) - length (rev r))%nat with 0%nat by lia.
      simpl. now rewrite Hd.
    + congruence.
Qed.

End Scan.

(** ** increment_fname *)

Section Increment.

Variable log10_big : Z -> Z -> bool.
Variable exists_ : pystr -> bool.

Lemma sub_mono fuel fuel' allow path n r :
  _sub log10_big fuel allow path n = r -> r <> OutOfFuel -> (fuel <= fuel')%nat ->
  _sub log10_big fuel' allow path n = r.
Proof.
  unfold _sub, _get_int_at_end_of_string.
  destruct (splitext path) as [root ext]. intros H Hr Hle.
  destruct (get_int_loop fuel n root 0) as [[[count base] nd]| |] eqn:E.
  - now rewrite (get_int_loop_mono fuel fuel' n root 0%nat _ E).
  - now rewrite (get_int_loop_mono fuel fuel' n root 0%nat _ E).
  - simpl in H. congruence.
Qed.

Lemma sub_all_digits fuel allow path n root ext :
  splitext path = (root, ext) -> root <> [] ->
  forallb is_digit root = true -> _sub log10_big fuel allow path n = OutOfFuel.
Proof.
  intros Hs Hne Hd. unfold _sub, _get_int_at_end_of_string. rewrite Hs.
  now rewrite get_int_loop_all_digits.
Qed.

Lemma increment_loop_return fuel scan_fuel path n overwrite allow p :
  _sub log10_big scan_fuel allow path n = Return p ->
  overwrite || negb (exists_ p) = true ->
  increment_loop log10_big (S fuel) scan_fuel exists_ path n overwrite allow = Return p.
Proof. intros H Hc. simpl. rewrite H. simpl. now rewrite Hc. Qed.

Lemma increment_loop_raise fuel scan_fuel path n overwrite allow ex :
  _sub log10_big scan_fuel allow path n = Raise ex ->
  increment_loop log10_big (S fuel) scan_fuel exists_ path n overwrite allow = Raise ex.
Proof. intros H. simpl. now rewrite H. Qed.

Lemma increment_all_digits fuel path n overwrite allow root ext :
  splitext path = (root, ext) -> root <> [] ->
  forallb is_digit root = true ->
  increment_fname log10_big fuel exists_ path n overwrite allow = OutOfFuel.
Proof.
  intros Hs Hne Hd. unfold increment_fname.
  destruct fuel as [|fuel]; [reflexivity|]. simpl.
  now rewrite (sub_all_digits _ _ _ _ _ _ Hs Hne Hd).
Qed.

(** What [_sub] does once the scan found a counter. *)
Lemma sub_found fuel allow path n root ext c base w :
  splitext path = (root, ext) ->
  _get_int_at_end_of_string fuel n root = Return (Some c, base, w) ->
  0 <= c ->
  _sub log10_big fuel allow path n =
    if log10_ge log10_big (c + 1) w then
      if allow
      then Return (base ++ zfill (py_str (c + 1)) (w + 1) ++ ext)
      else Raise (NotImplementedError "Too many digits to increment")
    else Return (base ++ zfill (py_str (c + 1)) w ++ ext).
Proof.
  intros Hs Hscan Hc. unfold _sub. rewrite Hs, Hscan. simpl.
  destruct (c <? 0) eqn:E; [apply Z.ltb_lt in E; lia|].
  destruct (log10_ge log10_big (c + 1) w); [|reflexivity].
  destruct allow; reflexivity.
Qed.

(** Below [10 ^ 14] the comparison is the one of exact integers. *)
Lemma log10_ge_small x n :
  x < 10 ^ 14 -> log10_ge log10_big x n = (10 ^ n <=? x).
Proof.
  intros H. unfold log10_ge. apply Z.ltb_lt in H. now rewrite H.
Qed.

Lemma sub_no_counter fuel allow path n root ext :
  splitext path = (root, ext) -> ends_in_digit root = false ->
  _sub log10_big (S fuel) allow path n = Return (root ++ zfill (py "1") n ++ ext).
Proof.
  intros Hs Hd. unfold _sub, _get_int_at_end_of_string. rewrite Hs. simpl.
  now rewrite (last_chars_1_nondigit root Hd).
Qed.

Lemma zfill_one n :
  zfill (py "1") n = repeat "0"%char (Z.to_nat (n - 1)) ++ py "1".
Proof. reflexivity. Qed.

Lemma zfill_one_length n :
  1 <= n -> Z.of_nat (length (zfill (py "1") n)) = n.
Proof.
  intros Hn. rewrite zfill_one, length_app, repeat_length. simpl. lia.
Qed.

End Increment.

(** ** [str], [zfill] and [int] *)

Section Decimal.

Import DecimalString.

Lemma int_digits_digit c t acc prev :
  is_digit c = true ->
  int_digits acc prev (c :: t) = int_digits (10 * acc + digit_val c) true t.
Proof. intros H. simpl. now rewrite H. Qed.

Lemma uint_chars_digits d :
  forallb is_digit (py (NilEmpty.string_of_uint d)) = true.
Proof. induction d; [reflexivity | ..]; exact IHd. Qed.

Ltac digit_step IH :=
  match goal with
  | |- int_digits ?a ?p (py (NilEmpty.string_of_uint (?D ?d))) = _ =>
      let c := eval vm_compute in (hd "0"%char
                 (py (NilEmpty.string_of_uint (D Decimal.Nil)))) in
      change (py (NilEmpty.string_of_uint (D d)))
        with (c :: py (NilEmpty.string_of_uint d));
      rewrite int_digits_digit by reflexivity;
      let v := eval vm_compute in (digit_val c) in
      change (digit_val c) with v
  end.

Lemma int_digits_uint_acc d : forall acc,
  int_digits (Z.pos acc) true (py (NilEmpty.string_of_uint d))
  = Some (Z.pos (Pos.of_uint_acc d acc)).
Proof.
  induction d; intros acc; [reflexivity | ..];
    digit_step IHd; cbn [Pos.of_uint_acc]; rewrite <- IHd; f_equal; lia.
Qed.

Lemma int_digits_uint d : forall prev,
  d <> Decimal.Nil \/ prev = true ->
  int_digits 0 prev (py (NilEmpty.string_of_uint d))
  = Some (Z.of_N (Pos.of_uint d)).
Proof.
  induction d; intros prev Hp;
    [destruct Hp as [Hp | ->]; [congruence | reflexivity] | ..];
    digit_step IHd; cbn [Pos.of_uint];
    first [ apply IHd; now right
          | apply (int_digits_uint_acc d) ].
Qed.

Lemma py_str_pos p :
  py_str (Z.pos p) = py (NilEmpty.string_of_uint (Pos.to_uint p)).
Proof.
  unfold py_str. cbn [Z.to_int NilZero.string_of_int].
  pose proof (DecimalPos.Unsigned.to_uint_nonnil p) as Hnil.
  unfold NilZero.string_of_uint. now destruct (Pos.to_uint p).
Qed.

Lemma py_str_digits n :
  0 <= n -> py_str n <> [] /\ forallb is_digit (py_str n) = true.
Proof.
  intros Hn. destruct n as [|p|p]; [split; [discriminate | reflexivity] | | lia].
  rewrite py_str_pos. split; [|apply uint_chars_digits].
  pose proof (DecimalPos.Unsigned.to_uint_nonnil p) as Hnil.
  now destruct (Pos.to_uint p).
Qed.

Lemma py_int_digits_eq s :
  s <> [] -> forallb is_digit s = true -> py_int s = int_digits 0 false s.
Proof.
  intros Hne Hd. unfold py_int. rewrite (strip_all_digits s Hd).
  destruct s as [|c t]; [congruence|].
  pose proof Hd as Hd'. simpl in Hd'. apply andb_true_iff in Hd' as [Hc _].
  now destruct (digit_not_sign c Hc) as [-> ->].
Qed.

Lemma py_int_py_str n : 0 <= n -> py_int (py_str n) = Some n.
Proof.
  intros Hn. destruct (py_str_digits n Hn) as [Hne Hd].
  rewrite (py_int_digits_eq _ Hne Hd).
  destruct n as [|p|p]; [reflexivity | | lia].
  rewrite py_str_pos, int_digits_uint.
  - now rewrite DecimalPos.Unsigned.of_to.
  - left. apply DecimalPos.Unsigned.to_uint_nonnil.
Qed.

Lemma int_digits_zeros k : forall s prev,
  forallb is_digit s = true -> s <> [] ->
  int_digits 0 prev (repeat "0"%char k ++ s) = int_digits 0 false s.
Proof.
  induction k as [|k IH]; intros s prev Hd Hne; simpl.
  - destruct s as [|c t]; [congruence|]. simpl in Hd.
    apply andb_true_iff in Hd as [Hc _]. now rewrite !int_digits_digit.
  - now apply IH.
Qed.

Lemma zfill_digits s w :
  forallb is_digit s = true -> s <> [] ->
  zfill s w = repeat "0"%char (Z.to_nat (w - Z.of_nat (length s))) ++ s.
Proof.
  intros Hd Hne. unfold zfill. destruct s as [|c t]; [congruence|].
  simpl in Hd. apply andb_true_iff in Hd as [Hc _].
  now destruct (digit_not_sign c Hc) as [-> ->].
Qed.

Lemma zfill_all_digits s w :
  forallb is_digit s = true -> s <> [] ->
  forallb is_digit (zfill s w) = true /\ zfill s w <> [].
Proof.
  intros Hd Hne. rewrite (zfill_digits s w Hd Hne). split.
  - rewrite forallb_app, Hd, andb_true_r.
    induction (Z.to_nat (w - Z.of_nat (length s))); [reflexivity | exact IHn].
  - intros H. apply app_eq_nil in H as [_ H]. congruence.
Qed.

(** The value of a run of digits read after the accumulator [acc]. *)
Lemma int_digits_bound s : forall acc prev v,
  forallb is_digit s = true -> int_digits acc prev s = Some v ->
  acc * 10 ^ Z.of_nat (length s) <= v
  < (acc + 1) * 10 ^ Z.of_nat (length s).
Proof.
  induction s as [|c t IH]; intros acc prev v Hd H.
  - simpl in H. destruct prev; [|discriminate]. simplify_eq. simpl. lia.
  - simpl in Hd. apply andb_true_iff in Hd as [Hc Ht].
    rewrite int_digits_digit in H by exact Hc.
    apply IH in H; [|exact Ht].
    assert (Hv : 0 <= digit_val c <= 9).
    { unfold is_digit in Hc. apply andb_true_iff in Hc as [H1 H2].
      apply Z.leb_le in H1, H2. unfold digit_val. lia. }
    change (length (c :: t)) with (S (length t)).
    rewrite Nat2Z.inj_succ, Z.pow_succ_r by lia.
    assert (0 < 10 ^ Z.of_nat (length t)) by (apply Z.pow_pos_nonneg; lia).
    nia.
Qed.

Lemma zfill_length n k :
  0 <= n ->
  Z.of_nat (length (zfill (py_str n) k))
  = Z.max k (Z.of_nat (length (py_str n))).
Proof.
  intros Hn. destruct (py_str_digits n Hn) as [Hne Hd].
  rewrite (zfill_digits _ k Hd Hne), length_app, repeat_length. lia.
Qed.

Lemma int_zfill_str n w : 0 <= n -> py_int (zfill (py_str n) w) = Some n.
Proof.
  intros Hn. destruct (py_str_digits n Hn) as [Hne Hd].
  destruct (zfill_all_digits (py_str n) w Hd Hne) as [Hzd Hzne].
  rewrite (py_int_digits_eq _ Hzne Hzd), (zfill_digits _ w Hd Hne).
  rewrite (int_digits_zeros _ _ false Hd Hne).
  rewrite <- (py_int_digits_eq _ Hne Hd). now apply py_int_py_str.
Qed.

End Decimal.

(** ** The scan, continued *)

Section ScanMore.

Lemma int_digits_chars s : forall acc prev v,
  int_digits acc prev s = Some v -> forallb int_char s = true.
Proof.
  induction s as [|c t IH]; intros acc prev v H; [reflexivity|].
  simpl in H. unfold int_char at 1. simpl.
  destruct (is_digit c) eqn:Hc.
  - simpl. eapply IH. exact H.
  - destruct (Ascii.eqb c "_" && prev) eqn:Hu; [|discriminate].
    apply andb_true_iff in Hu as [Hu _]. rewrite Hu, !orb_true_r. simpl.
    eapply IH. exact H.
Qed.

Lemma lstrip_split s :
  exists sp, s = sp ++ lstrip s /\ forallb is_space sp = true.
Proof.
  induction s as [|c t [sp [E F]]]; [exists []; now split|].
  simpl. destruct (is_space c) eqn:Hc.
  - exists (c :: sp). split; [simpl; congruence | simpl; now rewrite Hc].
  - exists []. now split.
Qed.

Lemma space_int_char s : forallb is_space s = true -> forallb int_char s = true.
Proof.
  induction s as [|c t IH]; [reflexivity|]. simpl. intros H.
  apply andb_true_iff in H as [Hc Ht]. rewrite (IH Ht). unfold int_char.
  now rewrite Hc, orb_true_r.
Qed.

(** An integer literal consists of literal characters only. *)
Lemma py_int_chars s v : py_int s = Some v -> forallb int_char s = true.
Proof.
  unfold py_int, strip. intros H.
  destruct (lstrip_split s) as (sp1 & E1 & F1).
  destruct (lstrip_split (rev (lstrip s))) as (sp2 & E2 & F2).
  assert (Hcore : forallb int_char (rev (lstrip (rev (lstrip s)))) = true).
  { destruct (rev (lstrip (rev (lstrip s)))) as [|c t]; [discriminate|].
    simpl. destruct (Ascii.eqb c "+") eqn:Hp.
    - unfold int_char at 1. rewrite Hp, !orb_true_r. simpl.
      eapply int_digits_chars; eauto.
    - destruct (Ascii.eqb c "-") eqn:Hm.
      + unfold int_char at 1. rewrite Hm, !orb_true_r. simpl.
        destruct (int_digits 0 false t) eqn:Ed; [|discriminate].
        eapply int_digits_chars; eauto.
      + change (forallb int_char (c :: t) = true).
        eapply int_digits_chars; eauto. }
  rewrite forallb_rev in Hcore.
  rewrite E1, forallb_app, (space_int_char _ F1). simpl.
  rewrite <- (rev_involutive (lstrip s)), forallb_rev, E2, forallb_app.
  now rewrite (space_int_char _ F2), Hcore.
Qed.

(** From counter [i >= 1] on, the loop keeps the invariant that the last
    [i] characters parse, so that the [int] of its handler cannot fail. *)
Lemma get_int_loop_no_raise fuel : forall n s i ex,
  (i = 0%nat \/ exists v, py_int (last_chars i s) = Some v) ->
  get_int_loop fuel n s i <> Raise ex.
Proof.
  induction fuel as [|fuel IH]; intros n s i ex Hinv; simpl; [discriminate|].
  destruct (py_int (last_chars (i + 1) s)) as [v|] eqn:E.
  - apply IH. right. eauto.
  - destruct (i =? 0)%nat eqn:Ei; [discriminate|].
    apply Nat.eqb_neq in Ei. destruct Hinv as [->|[v ->]]; [congruence|].
    discriminate.
Qed.

Lemma last_chars_whole (s : pystr) k :
  (length s <= k)%nat -> last_chars k s = s.
Proof.
  intros H. unfold last_chars.
  now replace (length s - k)%nat with 0%nat by lia.
Qed.

Lemma last_chars_app (a b : pystr) k :
  (k <= length b)%nat -> last_chars k (a ++ b) = last_chars k b.
Proof.
  intros H. unfold last_chars. rewrite length_app, skipn_app.
  replace (length a + length b - k - length a)%nat with (length b - k)%nat
    by lia.
  rewrite skipn_all2 by lia. reflexivity.
Qed.

Lemma drop_last_app (a b : pystr) : drop_last (length b) (a ++ b) = a.
Proof.
  unfold drop_last. rewrite length_app.
  replace (length a + length b - length b)%nat with (length a) by lia.
  rewrite firstn_app, firstn_all, Nat.sub_diag. simpl. apply app_nil_r.
Qed.

End ScanMore.

(** ** increment_fname, continued *)

Section IncrementMore.

Variable log10_big : Z -> Z -> bool.

Lemma scan_not_literal_returns n s :
  py_int s = None ->
  exists r, _get_int_at_end_of_string (S (length s)) n s = Return r.
Proof.
  intros H. unfold _get_int_at_end_of_string.
  assert (Hk : get_int_loop (S (length s)) n s 0 <> OutOfFuel).
  { apply (get_int_loop_returns (length s) n s 0%nat).
    rewrite last_chars_whole by lia. exact H. }
  pose proof (get_int_loop_no_raise (S (length s)) n s 0%nat) as Hr.
  destruct (get_int_loop (S (length s)) n s 0) as [r|ex|].
  - eauto.
  - exfalso. apply (Hr ex); auto.
  - congruence.
Qed.

Lemma not_literal s :
  existsb (fun c => negb (int_char c)) s = true -> py_int s = None.
Proof.
  intros H. destruct (py_int s) as [v|] eqn:E; [|reflexivity].
  apply py_int_chars in E. apply existsb_exists in H as (c & Hin & Hc).
  rewrite forallb_forall in E. rewrite (E c Hin) in Hc. discriminate.
Qed.

Lemma sub_raises_only_overflow fuel allow path n ex :
  _sub log10_big fuel allow path n = Raise ex ->
  allow = false /\ ex = NotImplementedError "Too many digits to increment".
Proof.
  unfold _sub, _get_int_at_end_of_string.
  destruct (splitext path) as [root ext].
  pose proof (get_int_loop_no_raise fuel n root 0%nat) as Hr.
  destruct (get_int_loop fuel n root 0) as [[[count base] nd]|e|]; simpl.
  - destruct count as [c|]; simpl; [|discriminate].
    destruct (c <? 0); simpl; [discriminate|].
    destruct (log10_ge log10_big (c + 1) nd); simpl; [|discriminate].
    destruct allow; simpl; [discriminate|]. intros H. now simplify_eq.
  - exfalso. apply (Hr e); auto.
  - discriminate.
Qed.

Lemma increment_loop_raises_only_overflow fuel :
  forall scan_fuel ex path n ow allow e,
    increment_loop log10_big fuel scan_fuel ex path n ow allow = Raise e ->
    allow = false /\ e = NotImplementedError "Too many digits to increment".
Proof.
  induction fuel as [|fuel IH]; intros sf ex path n ow allow e H; simpl in H.
  - discriminate.
  - destruct (_sub log10_big sf allow path n) as [q|e'|] eqn:E; simpl in H.
    + destruct (ow || negb (ex q)); [discriminate | eapply IH; eauto].
    + simplify_eq. eapply sub_raises_only_overflow; eauto.
    + discriminate.
Qed.

(** The scan of a stem [base ++ digits], where [base] ends in a character
    that cannot occur in a literal. *)
Lemma scan_counter fuel n base digits c :
  ends_ordinary base = true ->
  digits <> [] -> forallb is_digit digits = true ->
  py_int digits = Some c ->
  (length digits < fuel)%nat ->
  _get_int_at_end_of_string fuel n (base ++ digits)
  = Return (Some c, base, Z.of_nat (length digits)).
Proof.
  intros Hb Hne Hd Hc Hf. unfold _get_int_at_end_of_string.
  assert (Hloop : forall j i f,
             (i + j = length digits)%nat -> (j < f)%nat ->
             get_int_loop f n (base ++ digits) i
             = Return (Some c, base, Z.of_nat (length digits))).
  { induction j as [|j IH]; intros i f Hij Hjf;
      (destruct f as [|f]; [lia|]); simpl.
    - assert (Hi : i = length digits) by lia. subst i.
      assert (py_int (last_chars (length digits + 1) (base ++ digits)) = None)
        as ->.
      { apply not_literal. unfold ends_ordinary in Hb.
        destruct (rev base) as [|x r] eqn:Er; [discriminate|].
        apply (f_equal (@rev ascii)) in Er. rewrite rev_involutive in Er.
        simpl in Er. subst base. unfold last_chars.
        rewrite !length_app. simpl.
        replace (length (rev r) + 1 + length digits - (length digits + 1))%nat
          with (length (rev r) + 0)%nat by lia.
        rewrite <- !app_assoc, skipn_app, Nat.add_0_r, skipn_all.
        replace (length (rev r) - length (rev r))%nat with 0%nat by lia.
        simpl. now rewrite Hb. }
      destruct (length digits =? 0)%nat eqn:E0.
      + apply Nat.eqb_eq in E0. destruct digits; [congruence | discriminate].
      + rewrite last_chars_app by lia. rewrite last_chars_whole by lia.
        now rewrite Hc, drop_last_app.
    - rewrite last_chars_app by lia.
      destruct (py_int_all_digits (last_chars (i + 1) digits)) as [v ->].
      + now apply last_chars_nonempty.
      + now apply last_chars_all_digits.
      + apply IH; lia. }
  apply (Hloop (length digits) 0%nat fuel); lia.
Qed.

End IncrementMore.

(** C1 (the code diverges where termination is specified).  On the
    path "123.txt", whose stem consists of digits only, [increment_fname]
    returns for no amount of fuel, whatever the disk holds and whatever the
    other arguments are: the slice [string[-(i + 1):]] saturates at the
    whole stem, which always parses, so the scan never leaves its loop. *)
Theorem increment_fname_all_digit_stem_diverges :
  forall log10_big fuel exists_ n_digits overwrite allow,
    increment_fname log10_big fuel exists_ (py "123.txt") n_digits overwrite allow
    = OutOfFuel.
Proof.
  intros. apply (increment_all_digits _ _ _ _ _ _ _ (py "123") (py ".txt"));
    [reflexivity | discriminate | reflexivity].
Qed.

(** C9.  When the stem does not end in a digit and the produced path does
    not exist, [increment_fname] returns the stem followed by the counter 1
    zero-padded to the minimum digit width and by the unchanged extension;
    for a width of at least one the counter has exactly [n_digits]
    characters. *)
Theorem increment_fname_first_counter :
  forall log10_big fuel exists_ path n_digits overwrite allow root ext,
    splitext path = (root, ext) ->
    ends_in_digit root = false ->
    exists_ (root ++ zfill (py "1") n_digits ++ ext) = false ->
    increment_fname log10_big (S fuel) exists_ path n_digits overwrite allow
    = Return (root ++ zfill (py "1") n_digits ++ ext)
    /\ zfill (py "1") n_digits
       = repeat "0"%char (Z.to_nat (n_digits - 1)) ++ py "1"
    /\ (1 <= n_digits ->
        Z.of_nat (length (zfill (py "1") n_digits)) = n_digits).
Proof.
  intros lg fuel ex path n ow al root ext Hs Hd Hex. split; [|split].
  - unfold increment_fname. apply increment_loop_return.
    + now apply (sub_no_counter _ _ _ _ _ root ext).
    + rewrite Hex. apply orb_true_r.
  - apply zfill_one.
  - apply zfill_one_length.
Qed.

Lemma increment_fname_first_counter_witness :
  increment_fname (fun _ _ => false) 1 (fun _ => false) (py "out/take.m4a") 3
    false true
  = Return (py "out/take001.m4a").
Proof.
  apply (increment_fname_first_counter (fun _ _ => false) 0 (fun _ => false)
           (py "out/take.m4a") 3 false true (py "out/take") (py ".m4a"));
    reflexivity.
Defined.

(** C5.  With enough fuel for the scan, incrementing "file999.txt" with
    minimum width 3 fails with the digit-overflow error when the width may
    not grow, and returns "file1000.txt" when it may (and that path is
    free). *)
Theorem increment_fname_digit_overflow :
  forall log10_big fuel exists_ overwrite,
    (4 <= fuel)%nat ->
    increment_fname log10_big fuel exists_ (py "file999.txt") 3 overwrite false
    = Raise (NotImplementedError "Too many digits to increment")
    /\ (exists_ (py "file1000.txt") = false ->
        increment_fname log10_big fuel exists_ (py "file999.txt") 3 overwrite true
        = Return (py "file1000.txt")).
Proof.
  intros lg fuel ex ow Hf. unfold increment_fname.
  destruct fuel as [|fuel]; [lia|]. split.
  - apply increment_loop_raise.
    apply (sub_mono lg 4); [vm_compute; reflexivity | discriminate | lia].
  - intros Hex. apply increment_loop_return.
    + apply (sub_mono lg 4); [vm_compute; reflexivity | discriminate | lia].
    + rewrite Hex. apply orb_true_r.
Qed.

Lemma increment_fname_digit_overflow_witness :
  increment_fname (fun _ _ => false) 4 (fun _ => false) (py "file999.txt") 3
    false false
  = Raise (NotImplementedError "Too many digits to increment")
  /\ increment_fname (fun _ _ => false) 4 (fun _ => false) (py "file999.txt")
       3 false true
     = Return (py "file1000.txt").
Proof.
  destruct (increment_fname_digit_overflow (fun _ _ => false) 4
              (fun _ => false) false)
    as [H1 H2]; [lia|].
  split; [exact H1 | apply H2; reflexivity].
Defined.

(** C4, as the specification states it, fails: incrementing "file5.txt"
    with minimum digit width 3 gives "file6.txt", padded to the parsed
    width 1, whereas the width [max n_digits w] would give "file006.txt". *)
Lemma pad_width_max_counterexample :
  increment_fname (fun _ _ => false) 2 (fun _ => false) (py "file5.txt") 3
    false true
  = Return (py "file6.txt")
  /\ py "file" ++ zfill (py_str (5 + 1)) (Z.max 3 1) ++ py ".txt"
     = py "file006.txt"
  /\ py "file6.txt" <> py "file006.txt".
Proof. repeat split; try (vm_compute; reflexivity). discriminate. Qed.

(** C4, amended.  When the stem ends, after an ordinary character, in a
    run of [w] decimal digits, these digits are the counter [c] that the
    scan finds, and the next counter [c + 1] is padded to the width [w]
    of that run itself: to [w + 1] when [math.log10(c + 1) >= w] and the
    width may grow, the overflow error being raised when it may not.  Below
    [10 ^ 14] that test is [c + 1 >= 10 ^ w], which holds exactly when the
    digits are all nines.  Padding to [k] gives [k] characters unless the
    number has more.  The minimum digit width is not consulted: the
    result is the same for every [n_digits]. *)
Theorem sub_pads_to_parsed_width :
  forall log10_big fuel allow path n_digits base digits ext,
    splitext path = (base ++ digits, ext) ->
    ends_ordinary base = true ->
    digits <> [] ->
    forallb is_digit digits = true ->
    (length digits < fuel)%nat ->
    let w := Z.of_nat (length digits) in
    exists c,
      py_int digits = Some c
      /\ 0 <= c < 10 ^ w
      /\ _sub log10_big fuel allow path n_digits
         = (if log10_ge log10_big (c + 1) w then
              if allow
              then Return (base ++ zfill (py_str (c + 1)) (w + 1) ++ ext)
              else Raise (NotImplementedError "Too many digits to increment")
            else Return (base ++ zfill (py_str (c + 1)) w ++ ext))
      /\ (c + 1 < 10 ^ 14 ->
          log10_ge log10_big (c + 1) w = (10 ^ w <=? c + 1))
      /\ (forall k,
            Z.of_nat (length (zfill (py_str (c + 1)) k))
            = Z.max k (Z.of_nat (length (py_str (c + 1)))))
      /\ (forall n_digits',
            _sub log10_big fuel allow path n_digits'
            = _sub log10_big fuel allow path n_digits).
Proof.
  intros lg fuel allow path n base digits ext Hs Hb Hne Hd Hf w.
  destruct (py_int_all_digits digits Hne Hd) as [c Hc].
  assert (Hrange : 0 <= c < 10 ^ w).
  { rewrite (py_int_digits_eq _ Hne Hd) in Hc.
    pose proof (int_digits_bound digits 0 false c Hd Hc) as Hbd.
    fold w in Hbd. lia. }
  assert (Hsub : forall m,
             _sub lg fuel allow path m
             = (if log10_ge lg (c + 1) w then
                  if allow
                  then Return (base ++ zfill (py_str (c + 1)) (w + 1) ++ ext)
                  else Raise (NotImplementedError
                                "Too many digits to increment")
                else Return (base ++ zfill (py_str (c + 1)) w ++ ext))).
  { intros m.
    apply (sub_found lg fuel allow path m _ ext c base w Hs); [|lia].
    now apply scan_counter. }
  exists c. split; [exact Hc|]. split; [exact Hrange|].
  split; [apply Hsub|]. split; [apply log10_ge_small|]. split.
  - intros k. apply zfill_length. lia.
  - intros n'. now rewrite !Hsub.
Qed.

Lemma sub_pads_to_parsed_width_witness :
  exists c,
    py_int (py "005") = Some c
    /\ _sub (fun _ _ => false) 4 true (py "file005.txt") 7
       = Return (py "file" ++ zfill (py_str (c + 1)) 3 ++ py ".txt").
Proof.
  destruct (sub_pads_to_parsed_width (fun _ _ => false) 4 true
              (py "file005.txt") 7 (py "file") (py "005") (py ".txt"))
    as (c & Hc & Hr & Hsub & Hsmall & _).
  - reflexivity.
  - reflexivity.
  - discriminate.
  - reflexivity.
  - simpl. lia.
  - assert (E : c = 5) by (vm_compute in Hc; congruence). subst c.
    exists 5. split; [reflexivity|]. rewrite Hsub. reflexivity.
Defined.

(** ** The noisy-app match *)

Section NoisyMatch.

Import PyRe Pygmid2aud.

Lemma compile_plain entry :
  plain entry = true -> compile entry = Some (map Lit entry).
Proof.
  induction entry as [|c t IH]; simpl; [reflexivity|].
  intros H. apply andb_true_iff in H as [Hc Ht]. rewrite (IH Ht).
  apply negb_true_iff in Hc. rewrite Hc.
  destruct (Ascii.eqb c ".") eqn:E; [|reflexivity].
  apply Ascii.eqb_eq in E. subst c. discriminate Hc.
Qed.

Lemma match_here_literals entry : forall text,
  match_here (map Lit entry) text
  = is_prefix (map lower entry) (map lower text).
Proof.
  induction entry as [|x s IH]; intros [|c t]; simpl; try reflexivity.
  now rewrite IH.
Qed.

Lemma existsb_seq_shift (f : nat -> bool) n :
  existsb f (seq 1 n) = existsb (fun k => f (S k)) (seq 0 n).
Proof.
  rewrite <- seq_shift. induction (seq 0 n) as [|a l IH]; simpl;
    [reflexivity | now rewrite IH].
Qed.

Lemma search_positions atoms : forall text,
  search atoms text
  = existsb (fun k => match_here atoms (skipn k text))
            (seq 0 (S (length text))).
Proof.
  induction text as [|c t IH].
  - simpl. now rewrite !orb_false_r.
  - change (search atoms (c :: t))
      with (match_here atoms (c :: t) || search atoms t).
    rewrite IH. change (seq 0 (S (length (c :: t))))
      with (0%nat :: seq 1 (S (length t))).
    cbn [existsb]. rewrite existsb_seq_shift. reflexivity.
Qed.

Lemma search_literals entry text :
  search (map Lit entry) text = occurs_ignoring_case entry text.
Proof.
  rewrite search_positions. unfold occurs_ignoring_case.
  induction (seq 0 (S (length text))) as [|k l IH]; simpl; [reflexivity|].
  now rewrite IH, match_here_literals.
Qed.

Lemma re_search_plain other entry text :
  plain entry = true ->
  re_search_ignorecase other entry text
  = Return (occurs_ignoring_case entry text).
Proof.
  intros H. unfold re_search_ignorecase.
  now rewrite (compile_plain entry H), search_literals.
Qed.

End NoisyMatch.

(** C6, as stated, fails on an entry with a character special to regular
    expressions: the entry "zoom.us" is reported as open on a process list
    in which it does not occur as a literal substring, the dot standing for
    any character. *)
Lemma noisy_match_literal_counterexample :
  Pygmid2aud.find_open_apps Scenarios.calm [py "zoom.us"]
    (py "me 41 /opt/zoomXus")
  = Return [py "zoom.us"]
  /\ PyRe.occurs_ignoring_case (py "zoom.us") (py "me 41 /opt/zoomXus")
     = false.
Proof. split; vm_compute; reflexivity. Qed.

(** C6, amended.  Each denylist entry is searched as a regular expression,
    ignoring case; on entries without any character special to regular
    expressions this is case-insensitive literal substring matching: the
    apps reported are exactly the entries occurring, ignoring case, in the
    process list. *)
Theorem find_open_apps_plain_entries :
  forall e apps ps_result,
    forallb PyRe.plain apps = true ->
    Pygmid2aud.find_open_apps e apps ps_result
    = Return (List.filter
                (fun app => PyRe.occurs_ignoring_case app ps_result) apps).
Proof.
  intros e apps ps. induction apps as [|app rest IH]; intros H; simpl in *.
  - reflexivity.
  - apply andb_true_iff in H as [Ha Hr].
    rewrite (re_search_plain _ _ _ Ha), (IH Hr). simpl.
    destruct (PyRe.occurs_ignoring_case app ps); reflexivity.
Qed.

Lemma find_open_apps_plain_entries_witness :
  Pygmid2aud.find_open_apps Scenarios.zoom_running [py "Zoom"; py "Slack"]
    (Pygmid2aud.ps_aux Scenarios.zoom_running)
  = Return [py "Zoom"].
Proof.
  exact (find_open_apps_plain_entries Scenarios.zoom_running
           [py "Zoom"; py "Slack"]
           (Pygmid2aud.ps_aux Scenarios.zoom_running) eq_refl).
Defined.

(** ** The capture thread *)

Section Capture.

Import PyFloat Pygmid2aud.

Lemma read_loop_all n : forall (read : nat -> option bytes) k frames,
  (forall j, (k <= j < k + n)%nat -> is_Some (read j)) ->
  snd (read_loop n read k frames) = (k + n)%nat
  /\ length (fst (read_loop n read k frames)) = (length frames + n)%nat.
Proof.
  induction n as [|n IH]; intros read k frames H; simpl.
  - split; lia.
  - destruct (H k) as [chunk ->]; [lia|].
    destruct (IH read (S k) (frames ++ [chunk])) as [H1 H2].
    + intros j Hj. apply H. lia.
    + rewrite H1, H2, length_app. simpl. split; lia.
Qed.

(** A read that raises ends the loop: it is the last read made. *)
Lemma read_loop_stops n : forall (read : nat -> option bytes) k frames j,
  (j < n)%nat ->
  (forall i, (i < j)%nat -> is_Some (read (k + i)%nat)) ->
  read (k + j)%nat = None ->
  snd (read_loop n read k frames) = S (k + j)
  /\ length (fst (read_loop n read k frames)) = (length frames + j)%nat.
Proof.
  induction n as [|n IH]; intros read k frames j Hj Hok Hend; [lia|].
  simpl. destruct j as [|j].
  - rewrite Nat.add_0_r in Hend. rewrite Hend. simpl. split; lia.
  - destruct (Hok 0%nat) as [chunk Hc]; [lia|].
    rewrite Nat.add_0_r in Hc. rewrite Hc.
    destruct (IH read (S k) (frames ++ [chunk]) j) as [H1 H2].
    + lia.
    + intros i Hi. replace (S k + i)%nat with (k + S i)%nat by lia.
      apply Hok. lia.
    + now replace (S k + j)%nat with (k + S j)%nat by lia.
    + rewrite H1, H2, length_app. simpl. split; lia.
Qed.

Lemma all_from_spec (f : Z -> bool) n : forall d0,
  all_from f n d0 = true ->
  forall d, d0 <= d < d0 + Z.of_nat n -> f d = true.
Proof.
  induction n as [|n IH]; intros d0 H d Hd; [lia|].
  simpl in H. apply andb_true_iff in H as [H0 H1].
  destruct (Z.eq_dec d d0) as [->|Hne]; [exact H0|].
  apply (IH (d0 + 1) H1). lia.
Qed.

Lemma frame_count_exact_at_spec rate fpb extra d :
  frame_count_exact_at rate fpb extra d = true ->
  frame_count rate (of_int d) fpb extra
  = Return (ceil_div (rate * (d + extra)) fpb)
  /\ exact_frame_count rate (of_int d) fpb extra
     = Some (ceil_div (rate * (d + extra)) fpb).
Proof.
  unfold frame_count_exact_at.
  destruct (frame_count rate (of_int d) fpb extra) as [n| |];
    try discriminate.
  destruct (exact_frame_count rate (of_int d) fpb extra) as [n'|];
    try discriminate.
  intros H. apply andb_true_iff in H as [H1 H2].
  apply Z.eqb_eq in H1, H2. subst. split; reflexivity.
Qed.

(** At the rate and the buffer size of the script, for every whole number
    of seconds below two hours, the binary64 computation is exact. *)
Lemma frame_count_whole_seconds d :
  0 <= d < 7200 ->
  frame_count RATE (of_int d) CHUNK 1
  = Return (ceil_div (RATE * (d + 1)) CHUNK)
  /\ exact_frame_count RATE (of_int d) CHUNK 1
     = Some (ceil_div (RATE * (d + 1)) CHUNK).
Proof.
  intros Hd. apply frame_count_exact_at_spec.
  apply (all_from_spec (frame_count_exact_at RATE CHUNK 1)
           (Z.to_nat 7200) 0); [vm_compute; reflexivity | lia].
Qed.

End Capture.

(** C7, as stated, fails.  With a duration of 5 s the count of the formula
    is 259, but on a stream whose first read raises the capture thread ends
    after that single read.  And the count of the code is the formula
    evaluated in binary64, which is not always the exact value of the
    formula: at the duration [rounded_duration] the code makes 44 reads
    where the exact value is 45. *)
Lemma capture_read_count_counterexample :
  Pygmid2aud.frame_count 44100 (PyFloat.of_int 5) 1024 1 = Return 259
  /\ snd (Pygmid2aud.get_frames
            (Pygmid2aud.stream_read Scenarios.dead_stream) 44100
            (PyFloat.of_int 5) 1024 [] 1)
     = 1%nat
  /\ snd (Pygmid2aud.get_frames (fun _ => Some (py "ab")) 44100
            Scenarios.rounded_duration 1024 [] 1)
     = 44%nat
  /\ Pygmid2aud.exact_frame_count 44100 Scenarios.rounded_duration 1024 1
     = Some 45.
Proof. vm_compute. repeat split; reflexivity. Qed.

(** C7, amended.  Let [n] be [ceil(rate / frames_per_buffer * (dur + 1))]
    as the code computes it: a binary64 division, addition and
    multiplication, then the ceiling.  When every read returns, the capture
    thread makes exactly [n] reads and appends as many frames.  When the
    read number [k] (counting from 0, [k < n]) is the first to raise, the
    thread ends with it: [k + 1] reads are made and [k] frames appended.
    At the rate and the buffer size of the script and a duration of a
    whole number [d] of seconds below two hours, the binary64 value is the
    exact one, [ceil(44100 * (d + 1) / 1024)]; for 5 s it is 259. *)
Theorem get_frames_read_count :
  forall (read : nat -> option Pygmid2aud.bytes) rate dur frames_per_buffer
         frames n,
    (q ← PyFloat.truediv rate frames_per_buffer;
     PyFloat.math_ceil
       (PyFloat.fmul q (PyFloat.fadd dur (PyFloat.of_int 1))))
    = Return n ->
    ((forall j, (j < Z.to_nat n)%nat -> is_Some (read j)) ->
     snd (Pygmid2aud.get_frames read rate dur frames_per_buffer frames 1)
     = Z.to_nat n
     /\ length
          (fst (Pygmid2aud.get_frames read rate dur frames_per_buffer
                  frames 1))
        = (length frames + Z.to_nat n)%nat)
    /\ (forall k,
          (k < Z.to_nat n)%nat ->
          (forall j, (j < k)%nat -> is_Some (read j)) ->
          read k = None ->
          snd (Pygmid2aud.get_frames read rate dur frames_per_buffer frames 1)
          = S k
          /\ length
               (fst (Pygmid2aud.get_frames read rate dur frames_per_buffer
                       frames 1))
             = (length frames + k)%nat)
    /\ (forall d,
          0 <= d < 7200 ->
          Pygmid2aud.frame_count Pygmid2aud.RATE (PyFloat.of_int d)
            Pygmid2aud.CHUNK 1
          = Return (Pygmid2aud.ceil_div (Pygmid2aud.RATE * (d + 1))
                      Pygmid2aud.CHUNK)
          /\ Pygmid2aud.exact_frame_count Pygmid2aud.RATE (PyFloat.of_int d)
               Pygmid2aud.CHUNK 1
             = Some (Pygmid2aud.ceil_div (Pygmid2aud.RATE * (d + 1))
                       Pygmid2aud.CHUNK))
    /\ Pygmid2aud.frame_count 44100 (PyFloat.of_int 5) 1024 1 = Return 259.
Proof.
  intros read rate dur fpb frames n Hn.
  change (Pygmid2aud.frame_count rate dur fpb 1 = Return n) in Hn.
  unfold Pygmid2aud.get_frames. rewrite Hn.
  split; [|split; [|split]].
  - intros Hread. apply (read_loop_all (Z.to_nat n) read 0 frames).
    intros j Hj. apply Hread. lia.
  - intros k Hk Hok Hend.
    apply (read_loop_stops (Z.to_nat n) read 0 frames k); auto.
  - apply frame_count_whole_seconds.
  - vm_compute. reflexivity.
Qed.

Lemma get_frames_read_count_witness :
  snd (Pygmid2aud.get_frames (fun k => if (k <? 3)%nat then Some (py "ab")
                                       else None)
         44100 (PyFloat.of_int 5) 1024 [] 1)
  = 4%nat.
Proof.
  destruct (get_frames_read_count
              (fun k => if (k <? 3)%nat then Some (py "ab") else None)
              44100 (PyFloat.of_int 5) 1024 [] 259) as (_ & H & _).
  - vm_compute. reflexivity.
  - destruct (H 3%nat) as [H1 _].
    + vm_compute. lia.
    + intros j Hj. destruct j as [|[|[|j]]]; try lia; eexists; reflexivity.
    + reflexivity.
    + exact H1.
Defined.

(** ** Projections of updated worlds *)

Section Projections.

Import Pygmid2aud.

Lemma output_device_set_device d w : output_device (set_device d w) = d.
Proof. reflexivity. Qed.

Lemma dnd_set_device d w : dnd (set_device d w) = dnd w.
Proof. reflexivity. Qed.

Lemma fs_set_device d w : fs (set_device d w) = fs w.
Proof. reflexivity. Qed.

Lemma stdout_set_device d w : stdout (set_device d w) = stdout w.
Proof. reflexivity. Qed.

Lemma calls_set_device d w : calls (set_device d w) = calls w.
Proof. reflexivity. Qed.

Lemma output_device_set_dnd b w : output_device (set_dnd b w) = output_device w.
Proof. reflexivity. Qed.

Lemma dnd_set_dnd b w : dnd (set_dnd b w) = b.
Proof. reflexivity. Qed.

Lemma fs_set_dnd b w : fs (set_dnd b w) = fs w.
Proof. reflexivity. Qed.

Lemma stdout_set_dnd b w : stdout (set_dnd b w) = stdout w.
Proof. reflexivity. Qed.

Lemma calls_set_dnd b w : calls (set_dnd b w) = calls w.
Proof. reflexivity. Qed.

Lemma output_device_set_fs m w : output_device (set_fs m w) = output_device w.
Proof. reflexivity. Qed.

Lemma dnd_set_fs m w : dnd (set_fs m w) = dnd w.
Proof. reflexivity. Qed.

Lemma fs_set_fs m w : fs (set_fs m w) = m.
Proof. reflexivity. Qed.

Lemma stdout_set_fs m w : stdout (set_fs m w) = stdout w.
Proof. reflexivity. Qed.

Lemma calls_set_fs m w : calls (set_fs m w) = calls w.
Proof. reflexivity. Qed.

Lemma output_device_add_stdout line w : output_device (add_stdout line w) = output_device w.
Proof. reflexivity. Qed.

Lemma dnd_add_stdout line w : dnd (add_stdout line w) = dnd w.
Proof. reflexivity. Qed.

Lemma fs_add_stdout line w : fs (add_stdout line w) = fs w.
Proof. reflexivity. Qed.

Lemma stdout_add_stdout line w : stdout (add_stdout line w) = stdout w ++ [line].
Proof. reflexivity. Qed.

Lemma calls_add_stdout line w : calls (add_stdout line w) = calls w.
Proof. reflexivity. Qed.

Lemma output_device_add_call c w : output_device (add_call c w) = output_device w.
Proof. reflexivity. Qed.

Lemma dnd_add_call c w : dnd (add_call c w) = dnd w.
Proof. reflexivity. Qed.

Lemma fs_add_call c w : fs (add_call c w) = fs w.
Proof. reflexivity. Qed.

Lemma stdout_add_call c w : stdout (add_call c w) = stdout w.
Proof. reflexivity. Qed.

Lemma calls_add_call c w : calls (add_call c w) = calls w ++ [c].
Proof. reflexivity. Qed.

End Projections.

Create Rewrite HintDb world.

#[global] Hint Rewrite
  @output_device_set_device @dnd_set_device @fs_set_device
  @stdout_set_device @calls_set_device @output_device_set_dnd
  @dnd_set_dnd @fs_set_dnd @stdout_set_dnd
  @calls_set_dnd @output_device_set_fs @dnd_set_fs
  @fs_set_fs @stdout_set_fs @calls_set_fs
  @output_device_add_stdout @dnd_add_stdout @fs_add_stdout
  @stdout_add_stdout @calls_add_stdout @output_device_add_call
  @dnd_add_call @fs_add_call @stdout_add_call
  @calls_add_call : world.

(** ** Programs that leave the device and the suppression state alone *)

Section Frames.

Import Pygmid2aud.

Lemma issued_none_refl (P : call -> Prop) w : issued_none P w w.
Proof. exists []. split; [now rewrite app_nil_r | constructor]. Qed.

Lemma issued_none_trans (P : call -> Prop) w1 w2 w3 :
  issued_none P w1 w2 -> issued_none P w2 w3 -> issued_none P w1 w3.
Proof.
  intros (l1 & E1 & F1) (l2 & E2 & F2). exists (l1 ++ l2). split.
  - now rewrite E2, E1, app_assoc.
  - apply Forall_app. now split.
Qed.

Lemma printed_none_refl (Q : message -> Prop) w : printed_none Q w w.
Proof. exists []. split; [now rewrite app_nil_r | constructor]. Qed.

Lemma printed_none_trans (Q : message -> Prop) w1 w2 w3 :
  printed_none Q w1 w2 -> printed_none Q w2 w3 -> printed_none Q w1 w3.
Proof.
  intros (l1 & E1 & F1) (l2 & E2 & F2). exists (l1 ++ l2). split.
  - now rewrite E2, E1, app_assoc.
  - apply Forall_app. now split.
Qed.

Lemma untouched_refl w : untouched w w.
Proof.
  split; [reflexivity|].
  split; [apply issued_none_refl | apply printed_none_refl].
Qed.

Lemma untouched_trans w1 w2 w3 :
  untouched w1 w2 -> untouched w2 w3 -> untouched w1 w3.
Proof.
  intros (D1 & I1 & P1) (D2 & I2 & P2). split; [congruence|].
  split; [eapply issued_none_trans | eapply printed_none_trans]; eauto.
Qed.

Lemma untouched_same w w' :
  output_device w' = output_device w -> calls w' = calls w ->
  stdout w' = stdout w -> untouched w w'.
Proof.
  intros D C S. split; [exact D|]. split.
  - exists []. split; [now rewrite app_nil_r | constructor].
  - exists []. split; [now rewrite app_nil_r | constructor].
Qed.

Ltac discreet_trivial :=
  intros w; split; [apply untouched_same; reflexivity | reflexivity].

Lemma discreet_ret {A} (a : A) : discreet (mret a).
Proof. discreet_trivial. Qed.

Lemma discreet_raise {A} ex : discreet (@raise A ex).
Proof. discreet_trivial. Qed.

Lemma discreet_lift {A} (o : outcome A) : discreet (lift o).
Proof. discreet_trivial. Qed.

Lemma discreet_gets {A} (f : world -> A) : discreet (gets f).
Proof. discreet_trivial. Qed.

Lemma discreet_set_fs (f : world -> gmap pystr node) :
  discreet (modify (fun w => set_fs (f w) w)).
Proof. discreet_trivial. Qed.

Lemma discreet_put_file p c : discreet (put_file p c).
Proof. apply discreet_set_fs. Qed.

Lemma discreet_modify_fs (m : gmap pystr node) : discreet (modify (set_fs m)).
Proof. discreet_trivial. Qed.

Lemma discreet_print e line : ~ announces line -> discreet (print e line).
Proof.
  intros Hl w. unfold print.
  destruct (fails e (length (calls w)) Print); simpl.
  - split; [apply untouched_refl | reflexivity].
  - split; [|reflexivity]. split; [reflexivity|]. split.
    + exists []. split; [simpl; now rewrite app_nil_r | constructor].
    + exists [line]. split; [reflexivity | now repeat constructor].
Qed.

Lemma discreet_external e c : ~ restores c -> discreet (external e c).
Proof.
  intros Hc w. unfold external.
  destruct (fails e (length (calls w)) c); simpl;
    (split; [|reflexivity]; split; [reflexivity|]; split;
     [ exists [c]; split; [reflexivity | now repeat constructor]
     | exists []; split; [simpl; now rewrite app_nil_r | constructor] ]).
Qed.

Lemma discreet_bind {A B} (m : prog A) (k : A -> prog B) :
  discreet m -> (forall a, discreet (k a)) -> discreet (m ≫= k).
Proof.
  intros Hm Hk w. unfold mbind, prog_bind.
  destruct (Hm w) as [U1 N1]. destruct (m w) as [[a| ex |] w1]; simpl in *.
  - destruct (Hk a w1) as [U2 N2]. split; [|congruence].
    eapply untouched_trans; eauto.
  - now split.
  - now split.
Qed.

Ltac discreet_step :=
  first
    [ apply discreet_ret | apply discreet_raise | apply discreet_lift
    | apply discreet_gets | apply discreet_put_file
    | apply discreet_modify_fs | apply discreet_set_fs
    | apply discreet_print; simpl; tauto
    | apply discreet_external; simpl; tauto
    | apply discreet_bind; [|intros ?]
    | match goal with
      | |- discreet (let _ := _ in _) => cbv zeta
      | |- discreet (if ?b then _ else _) => destruct b
      | |- discreet (match ?x with _ => _ end) => destruct x
      end ].

Ltac discreet_auto := repeat discreet_step.

Lemma discreet_makedirs e d : discreet (makedirs e d).
Proof. unfold makedirs. discreet_auto. Qed.

Lemma discreet_shutil_move e src dst : discreet (shutil_move e src dst).
Proof. unfold shutil_move. discreet_auto. Qed.

Lemma discreet_ffmpeg e o src dst : discreet (ffmpeg e o src dst).
Proof. unfold ffmpeg. discreet_auto. Qed.

Lemma discreet_write_to_output_path e midi out temp overwrite :
  discreet (write_to_output_path e midi out temp overwrite).
Proof. unfold write_to_output_path. discreet_auto. Qed.

Lemma discreet_write_wav e frames p f c r :
  discreet (write_wav e frames p f c r).
Proof. unfold write_wav. discreet_auto. Qed.

Lemma discreet_record e midi temp f c r fpb :
  discreet (record e midi temp f c r fpb).
Proof.
  unfold record, get_dur, get_pyaudio_and_stream, pygame_play, progress_bar,
    close_pyaudio.
  discreet_auto.
Qed.

Lemma discreet_check_for_noisy_apps e : discreet (check_for_noisy_apps e).
Proof. unfold check_for_noisy_apps. discreet_auto. Qed.

Lemma discreet_mkstemp e suffix : discreet (mkstemp e suffix).
Proof. unfold mkstemp. discreet_auto. Qed.

Lemma discreet_get_existing_output_device e :
  discreet (get_existing_output_device e).
Proof. unfold get_existing_output_device. discreet_auto. Qed.

Lemma discreet_run {A} (m : prog A) w o w' :
  discreet m -> m w = (o, w') -> untouched w w' /\ dnd w' = dnd w.
Proof. intros K E. specialize (K w). now rewrite E in K. Qed.

End Frames.

(** ** Restoration *)

Section Restoration.

Import Pygmid2aud.

Variable e : env.

Lemma bind_inv {A B} (m : prog A) (k : A -> prog B) w o w' :
  (m ≫= k) w = (o, w') ->
  (exists a w1, m w = (Return a, w1) /\ k a w1 = (o, w'))
  \/ (exists ex, m w = (Raise ex, w') /\ o = Raise ex)
  \/ (m w = (OutOfFuel, w') /\ o = OutOfFuel).
Proof.
  unfold mbind, prog_bind. destruct (m w) as [[a|ex|] w1]; intros H.
  - left. eauto.
  - right. left. injection H as <- <-. eauto.
  - right. right. injection H as <- <-. eauto.
Qed.

Lemma halts_bind {A B} (m : prog A) (k : A -> prog B) :
  halts m -> (forall a, halts (k a)) -> halts (m ≫= k).
Proof.
  intros Hm Hk w. unfold mbind, prog_bind. specialize (Hm w).
  destruct (m w) as [[a|ex|] w1]; simpl in *;
    [apply Hk | discriminate | congruence].
Qed.

Lemma halts_external c : halts (external e c).
Proof.
  intros w. unfold external. now destruct (fails e (length (calls w)) c).
Qed.

Lemma halts_print line : halts (print e line).
Proof.
  intros w. unfold print. now destruct (fails e (length (calls w)) Print).
Qed.

Lemma halts_lift {A} (o : outcome A) : o <> OutOfFuel -> halts (lift o).
Proof. intros H w. exact H. Qed.

Lemma halts_record midi temp f c r fpb :
  halts (record e midi temp f c r fpb).
Proof.
  unfold record, get_dur, get_pyaudio_and_stream, pygame_play, progress_bar,
    close_pyaudio, write_wav.
  repeat first
    [ apply halts_external
    | apply halts_print
    | apply halts_bind; [|intros ?]
    | apply halts_lift;
      first [ unfold _get_soundflower_index;
              now destruct (index_of SOUNDFLOWER (input_devices e) 0)
            | unfold get_sample_size;
              repeat match goal with |- context [if ?b then _ else _] =>
                       destruct b end; discriminate ]
    | match goal with
      | |- halts (if ?b then _ else _) => destruct b
      end
    | (intros ?; discriminate) ].
Qed.

(** [dnd_off] touches neither the device nor the output; when it returns,
    its result is the status found and suppression is on. *)
Lemma dnd_off_untouched w o w1 :
  dnd_off e w = (o, w1) ->
  untouched w w1
  /\ (forall s, o = Return s ->
        s = (if dnd w then py "on" else py "off") /\ dnd w1 = true).
Proof.
  assert (U : forall l, Forall (fun c => ~ restores c) l ->
                forall w2, output_device w2 = output_device w ->
                           calls w2 = calls w ++ l ->
                           stdout w2 = stdout w -> untouched w w2).
  { intros l Fl w2 D C S. split; [exact D|]. split; [now exists l|].
    exists []. split; [now rewrite app_nil_r | constructor]. }
  unfold dnd_off, mbind, prog_bind, external, gets, modify, mret, prog_ret.
  destruct (fails e (length (calls w)) DndStatus).
  - intros H. cbn in H. simplify_eq. split; [|discriminate].
    apply (U [DndStatus]); auto; repeat constructor; simpl; tauto.
  - change (dnd (add_call DndStatus w)) with (dnd w).
    destruct (dnd w) eqn:D.
    + rewrite bool_decide_eq_false_2 by (cbv; discriminate).
      intros H. cbn in H. simplify_eq. split.
      * apply (U [DndStatus]); auto; repeat constructor; simpl; tauto.
      * intros s Hs. simplify_eq. auto.
    + rewrite bool_decide_eq_true_2 by reflexivity. cbn.
      destruct (fails e _ DndOn); intros H; simplify_eq.
      * split; [|discriminate].
        apply (U [DndStatus; DndOn]); simpl; rewrite <- ?app_assoc; auto;
          repeat constructor; simpl; tauto.
      * split.
        -- apply (U [DndStatus; DndOn]); simpl; rewrite <- ?app_assoc; auto;
             repeat constructor; simpl; tauto.
        -- intros s Hs. simplify_eq. auto.
Qed.

Lemma get_existing_output_device_returns w d w' :
  get_existing_output_device e w = (Return d, w') -> d = output_device w.
Proof.
  unfold get_existing_output_device, mbind, prog_bind, external, gets, print,
    mret, prog_ret.
  destruct (fails e (length (calls w)) SwitchQuery); cbn; [discriminate|].
  destruct (fails e _ Print); intros H; now simplify_eq.
Qed.

(** The three ways a switch of the output device, announced afterwards,
    can end. *)
Lemma switch_cases d line w o w' :
  (external e (SwitchSet d);; modify (set_device d);; print e line) w
  = (o, w') ->
  (fails e (length (calls w)) (SwitchSet d) = true
   /\ o = Raise (CollaboratorError (SwitchSet d))
   /\ w' = add_call (SwitchSet d) w)
  \/ (fails e (length (calls w ++ [SwitchSet d])) Print = true
      /\ o = Raise (CollaboratorError Print)
      /\ w' = set_device d (add_call (SwitchSet d) w))
  \/ (o = Return tt
      /\ w' = add_stdout line (set_device d (add_call (SwitchSet d) w))).
Proof.
  unfold mbind, prog_bind, external, modify, print.
  destruct (fails e (length (calls w)) (SwitchSet d)) eqn:F1; cbn.
  - intros H. simplify_eq. left. auto.
  - destruct (fails e (length (calls w ++ [SwitchSet d])) Print) eqn:F2;
      intros H; simplify_eq; [right; left | right; right]; auto.
Qed.

Lemma restore_dnd_cases (was_on : bool) w o w' :
  restore_dnd e (if was_on then py "on" else py "off") w = (o, w') ->
  (was_on = true /\ o = Return tt /\ w' = w)
  \/ (was_on = false /\ fails e (length (calls w)) DndOff = true
      /\ o = Raise (CollaboratorError DndOff) /\ w' = add_call DndOff w)
  \/ (was_on = false /\ o = Return tt
      /\ w' = set_dnd false (add_call DndOff w)).
Proof.
  unfold restore_dnd. destruct was_on.
  - rewrite bool_decide_eq_false_2 by (cbv; discriminate).
    intros H. cbv in H. simplify_eq. left. auto.
  - rewrite bool_decide_eq_true_2 by reflexivity.
    unfold mbind, prog_bind, external, modify.
    destruct (fails e (length (calls w)) DndOff) eqn:F; cbn;
      intros H; simplify_eq; [right; left | right; right]; auto.
Qed.

(** The two restorations and what follows them, from the state [w6] in
    which [record] ended. *)
Lemma restoration_trace d (was_on : bool) (k : prog unit) w6 o w' :
  discreet k -> dnd w6 = true ->
  (soundflower_off e d
     ≫= λ _, restore_dnd e (if was_on then py "on" else py "off")
     ≫= λ _, k) w6 = (o, w') ->
  let w6' := add_call (SwitchSet d) w6 in
  (fails e (length (calls w6)) (SwitchSet d) = true
   /\ o = Raise (CollaboratorError (SwitchSet d)) /\ w' = w6')
  \/ (fails e (length (calls w6')) Print = true
      /\ o = Raise (CollaboratorError Print) /\ w' = set_device d w6')
  \/ let w7 := add_stdout (MsgRestoring d) (set_device d w6') in
     (was_on = false /\ fails e (length (calls w7)) DndOff = true
      /\ o = Raise (CollaboratorError DndOff) /\ w' = add_call DndOff w7)
     \/ (untouched (if was_on then w7 else set_dnd false (add_call DndOff w7))
           w'
         /\ dnd w' = was_on).
Proof.
  intros Hk N6 H. cbv zeta.
  apply bind_inv in H as [(u & w7 & H7 & H) | [(ex & H7 & ->) | [H7 ->]]];
    unfold soundflower_off in H7; apply switch_cases in H7;
    destruct H7 as [(F & E & ->) | [(F & E & ->) | (E & ->)]];
    try discriminate; simplify_eq; auto.
  right. right.
  apply bind_inv in H as [(u' & w8 & H8 & H) | [(ex & H8 & ->) | [H8 ->]]];
    apply restore_dnd_cases in H8;
    destruct H8 as [(W & E & ->) | [(W & F & E & ->) | (W & E & ->)]];
    try discriminate; simplify_eq; auto.
  - right. destruct (discreet_run _ _ _ _ Hk H) as [U N]. split; [exact U|].
    rewrite N. exact N6.
  - right. destruct (discreet_run _ _ _ _ Hk H) as [U N]. split; [exact U|].
    rewrite N. reflexivity.
Qed.

(** Every run of [main]: where it ended, and in what state. *)
Lemma main_trace a w o w' :
  main e a w = (o, w') ->
  let d0 := output_device w in
  (untouched w w' /\ forall u, o <> Return u)
  \/ exists w4,
       untouched w w4 /\ dnd w4 = true
       /\ let w4' := add_call (SwitchSet SOUNDFLOWER) w4 in
          (fails e (length (calls w4)) (SwitchSet SOUNDFLOWER) = true
           /\ o = Raise (CollaboratorError (SwitchSet SOUNDFLOWER))
           /\ w' = w4')
          \/ (fails e (length (calls w4')) Print = true
              /\ o = Raise (CollaboratorError Print)
              /\ w' = set_device SOUNDFLOWER w4')
          \/ exists w6,
               untouched
                 (add_stdout MsgSwitching (set_device SOUNDFLOWER w4')) w6
               /\ dnd w6 = true
               /\ let w6' := add_call (SwitchSet d0) w6 in
                  (fails e (length (calls w6)) (SwitchSet d0) = true
                   /\ o = Raise (CollaboratorError (SwitchSet d0))
                   /\ w' = w6')
                  \/ (fails e (length (calls w6')) Print = true
                      /\ o = Raise (CollaboratorError Print)
                      /\ w' = set_device d0 w6')
                  \/ let w7 :=
                       add_stdout (MsgRestoring d0) (set_device d0 w6') in
                     (dnd w = false
                      /\ fails e (length (calls w7)) DndOff = true
                      /\ o = Raise (CollaboratorError DndOff)
                      /\ w' = add_call DndOff w7)
                     \/ (untouched
                           (if dnd w then w7
                            else set_dnd false (add_call DndOff w7)) w'
                         /\ dnd w' = dnd w).
Proof.
  intros H. cbv zeta. unfold main, get_args in H.
  (* dnd_off *)
  apply bind_inv in H as [(s & w1 & H1 & H) | [(ex & H1 & ->) | [H1 ->]]];
    destruct (dnd_off_untouched _ _ _ H1) as (U1 & S1);
    [| left; split; [exact U1 | discriminate] ..].
  destruct (S1 s eq_refl) as [Es N1]. clear S1.
  (* check_for_noisy_apps *)
  apply bind_inv in H as [(u & w2 & H2 & H) | [(ex & H2 & ->) | [H2 ->]]];
    destruct (discreet_run _ _ _ _ (discreet_check_for_noisy_apps e) H2)
      as (U2 & N2);
    pose proof (untouched_trans _ _ _ U1 U2) as U12;
    [| left; split; [exact U12 | discriminate] ..].
  (* mkstemp *)
  apply bind_inv in H as [(temp & w3 & H3 & H) | [(ex & H3 & ->) | [H3 ->]]];
    destruct (discreet_run _ _ _ _ (discreet_mkstemp e _) H3) as (U3 & N3);
    pose proof (untouched_trans _ _ _ U12 U3) as U13;
    [| left; split; [exact U13 | discriminate] ..].
  (* get_existing_output_device *)
  apply bind_inv in H as [(dev & w4 & H4 & H) | [(ex & H4 & ->) | [H4 ->]]];
    destruct (discreet_run _ _ _ _ (discreet_get_existing_output_device e) H4)
      as (U4 & N4);
    pose proof (untouched_trans _ _ _ U13 U4) as U14;
    [| left; split; [exact U14 | discriminate] ..].
  apply get_existing_output_device_returns in H4.
  assert (Edev : dev = output_device w).
  { destruct U13 as (D13 & _). congruence. }
  clear H4. subst dev.
  right. exists w4. split; [exact U14|]. split; [congruence|].
  (* soundflower_on *)
  apply bind_inv in H as [(u5 & w5 & H5 & H) | [(ex & H5 & ->) | [H5 ->]]];
    unfold soundflower_on in H5; apply switch_cases in H5;
    destruct H5 as [(F & E & ->) | [(F & E & W) | (E & W)]];
    try discriminate; simplify_eq; auto.
  right. right.
  (* the try statement *)
  unfold try_except_else in H.
  match type of H with
  | context [record e ?m ?t ?f ?c ?r ?b ?w5] =>
      destruct (record e m t f c r b w5) as [res w6] eqn:R;
      pose proof (halts_record m t f c r b w5) as Hr
  end.
  rewrite R in Hr. simpl in Hr.
  destruct (discreet_run _ _ _ _ (discreet_record e _ _ _ _ _ _) R)
    as (U6 & N6).
  exists w6. split; [exact U6|].
  assert (N6' : dnd w6 = true) by (rewrite N6; autorewrite with world;
                                   congruence).
  split; [exact N6'|].
  destruct res as [result | ex |]; [| |congruence].
  - refine (restoration_trace (output_device w) (dnd w)
              (if result
               then write_to_output_path e _ _ _ _ else mret tt)
              w6 o w' _ N6' H).
    destruct result; [apply discreet_write_to_output_path
                     | apply discreet_ret].
  - refine (restoration_trace (output_device w) (dnd w) (raise ex)
              w6 o w' _ N6' H).
    apply discreet_raise.
Qed.

End Restoration.

(** ** Runs without failing collaborator *)

Section Runs.

Import Pygmid2aud.

Variable e : env.

Lemma run_bind_return {A B} (m : prog A) (k : A -> prog B) w a w1 :
  m w = (Return a, w1) -> (m ≫= k) w = k a w1.
Proof. intros H. unfold mbind, prog_bind. now rewrite H. Qed.

Lemma run_bind_raise {A B} (m : prog A) (k : A -> prog B) w ex w1 :
  m w = (Raise ex, w1) -> (m ≫= k) w = (Raise ex, w1).
Proof. intros H. unfold mbind, prog_bind. now rewrite H. Qed.

Lemma run_external c w :
  fails e (length (calls w)) c = false ->
  external e c w = (Return tt, add_call c w).
Proof. intros H. unfold external. now rewrite H. Qed.

Lemma run_print line w :
  fails e (length (calls w)) Print = false ->
  print e line w = (Return tt, add_stdout line w).
Proof. intros H. unfold print. now rewrite H. Qed.

Lemma pair_with_fst {A B} (p : A * B) a : fst p = a -> p = (a, snd p).
Proof. destruct p. simpl. now intros ->. Qed.

Lemma path_exists_absent w p : fs w !! p = None -> path_exists w p = false.
Proof.
  intros H. unfold path_exists. rewrite H.
  apply bool_decide_eq_false_2. intros [x Hx]. discriminate.
Qed.

Lemma run_dnd_off w :
  (forall n, fails e n DndStatus = false) ->
  (forall n, fails e n DndOn = false) ->
  dnd_off e w
  = (Return (if dnd w then py "on" else py "off"),
     if dnd w then add_call DndStatus w
     else set_dnd true (add_call DndOn (add_call DndStatus w))).
Proof.
  intros H1 H2. unfold dnd_off.
  rewrite (run_bind_return _ _ _ _ _ (run_external DndStatus w (H1 _))).
  unfold mbind, prog_bind, gets, modify, mret, prog_ret.
  change (dnd (add_call DndStatus w)) with (dnd w).
  destruct (dnd w).
  - now rewrite bool_decide_eq_false_2 by (cbv; discriminate).
  - rewrite bool_decide_eq_true_2 by reflexivity.
    now rewrite (run_external DndOn _ (H2 _)).
Qed.

Lemma run_check_no_file w :
  noisy_apps_file e = None ->
  (forall n p, fails e n (Input p) = false) ->
  (forall n, fails e n Print = false) ->
  check_for_noisy_apps e w
  = (Return tt,
     add_call (Input (py "<press enter to continue>"))
       (add_stdout MsgNoNoisyAppsFile w)).
Proof.
  intros Hn Hf Hp. unfold check_for_noisy_apps. rewrite Hn.
  rewrite (run_bind_return _ _ _ _ _ (run_print _ w (Hp _))).
  now rewrite (run_external _ _ (Hf _ _)).
Qed.

Lemma run_check_clear w text :
  noisy_apps_file e = Some text ->
  (forall n, fails e n PsAux = false) ->
  find_open_apps e (List.filter nonempty (split_lines text)) (ps_aux e)
  = Return [] ->
  check_for_noisy_apps e w = (Return tt, add_call PsAux w).
Proof.
  intros Hn Hf Ho. unfold check_for_noisy_apps. rewrite Hn.
  rewrite (run_bind_return _ _ _ _ _ (run_external PsAux w (Hf _))).
  unfold mbind, prog_bind, lift. now rewrite Ho.
Qed.

Lemma run_check_noisy w text app open_apps :
  noisy_apps_file e = Some text ->
  (forall n, fails e n PsAux = false) ->
  (forall n, fails e n Print = false) ->
  find_open_apps e (List.filter nonempty (split_lines text)) (ps_aux e)
  = Return (app :: open_apps) ->
  check_for_noisy_apps e w
  = (Raise (SystemExit 1),
     add_stdout (MsgNoisyApps (app :: open_apps)) (add_call PsAux w)).
Proof.
  intros Hn Hf Hp Ho. unfold check_for_noisy_apps. rewrite Hn.
  rewrite (run_bind_return _ _ _ _ _ (run_external PsAux w (Hf _))).
  unfold mbind at 1, prog_bind at 1, lift. rewrite Ho.
  now rewrite (run_bind_return _ _ _ _ _ (run_print _ _ (Hp _))).
Qed.

Lemma run_mkstemp w suffix :
  (forall n, fails e n (Mkstemp suffix) = false) ->
  fs w !! (temp_name e ++ suffix) = None ->
  mkstemp e suffix w
  = (Return (temp_name e ++ suffix),
     set_fs (<[temp_name e ++ suffix := File Empty]> (fs w))
       (add_call (Mkstemp suffix) w)).
Proof.
  intros Hf Ht. unfold mkstemp.
  rewrite (run_bind_return _ _ _ _ _ (run_external _ w (Hf _))).
  unfold mbind, prog_bind, gets, id.
  rewrite (path_exists_absent (add_call (Mkstemp suffix) w) _ Ht).
  reflexivity.
Qed.

Lemma run_get_existing_output_device w :
  (forall n, fails e n SwitchQuery = false) ->
  (forall n, fails e n Print = false) ->
  get_existing_output_device e w
  = (Return (output_device w),
     add_stdout (MsgExistingDevice (output_device w))
       (add_call SwitchQuery w)).
Proof.
  intros Hf Hp. unfold get_existing_output_device.
  rewrite (run_bind_return _ _ _ _ _ (run_external _ w (Hf _))).
  unfold mbind at 1, prog_bind at 1, gets.
  now rewrite (run_bind_return _ _ _ _ _ (run_print _ _ (Hp _))).
Qed.

Lemma run_switch w d line :
  (forall n d, fails e n (SwitchSet d) = false) ->
  (forall n, fails e n Print = false) ->
  (external e (SwitchSet d);; modify (set_device d);; print e line) w
  = (Return tt, add_stdout line (set_device d (add_call (SwitchSet d) w))).
Proof.
  intros Hf Hp.
  rewrite (run_bind_return _ _ _ _ _ (run_external _ w (Hf _ _))).
  unfold mbind at 1, prog_bind at 1, modify.
  now rewrite (run_print _ _ (Hp _)).
Qed.

Lemma run_soundflower_on w :
  (forall n d, fails e n (SwitchSet d) = false) ->
  (forall n, fails e n Print = false) ->
  soundflower_on e w
  = (Return tt,
     add_stdout MsgSwitching
       (set_device SOUNDFLOWER (add_call (SwitchSet SOUNDFLOWER) w))).
Proof. apply run_switch. Qed.

Lemma run_soundflower_off w d :
  (forall n d, fails e n (SwitchSet d) = false) ->
  (forall n, fails e n Print = false) ->
  soundflower_off e d w
  = (Return tt,
     add_stdout (MsgRestoring d) (set_device d (add_call (SwitchSet d) w))).
Proof. apply run_switch. Qed.

Lemma run_restore_dnd w (was_on : bool) :
  (forall n, fails e n DndOff = false) ->
  restore_dnd e (if was_on then py "on" else py "off") w
  = (Return tt,
     if was_on then w else set_dnd false (add_call DndOff w)).
Proof.
  intros Hf. unfold restore_dnd. destruct was_on.
  - now rewrite bool_decide_eq_false_2 by (cbv; discriminate).
  - rewrite bool_decide_eq_true_2 by reflexivity.
    now rewrite (run_bind_return _ _ _ _ _ (run_external _ w (Hf _))).
Qed.

(** [record] when the capture thread delivered no frame. *)
Lemma run_record_empty w midi temp f c r fpb i :
  (forall n k, fails e n k = false) ->
  index_of SOUNDFLOWER (input_devices e) 0 = Some i ->
  fst (get_frames (stream_read e) r (midi_length e) fpb [] 1) = [] ->
  record e midi temp f c r fpb w
  = (Return false,
     add_call ClosePyaudio
       (add_stdout MsgProgressBar
          (add_call ProgressBar
             (add_call (PygamePlay midi)
                (add_call OpenStream
                   (add_stdout (MsgDuration (midi_length e))
                      (add_call (MidiLength midi) w))))))).
Proof.
  intros Hf Hi Hfr.
  unfold record, get_dur, get_pyaudio_and_stream, pygame_play, progress_bar,
    close_pyaudio, _get_soundflower_index.
  cbv zeta. rewrite Hi.
  unfold mbind, prog_bind, modify, lift, mret, prog_ret.
  repeat (first [rewrite run_external by apply Hf
                | rewrite run_print by apply Hf]; cbv beta iota).
  rewrite Hfr. rewrite bool_decide_eq_true_2 by reflexivity.
  reflexivity.
Qed.

End Runs.

(** ** Whole sessions *)

Section Sessions.

Import Pygmid2aud.

Variable e : env.

Ltac project := autorewrite with world.

(** The session that finds a noisy app running. *)
Lemma run_main_noisy a w text app open_apps :
  (forall n, fails e n DndStatus = false) ->
  (forall n, fails e n DndOn = false) ->
  (forall n, fails e n PsAux = false) ->
  (forall n, fails e n Print = false) ->
  noisy_apps_file e = Some text ->
  find_open_apps e (List.filter nonempty (split_lines text)) (ps_aux e)
  = Return (app :: open_apps) ->
  dnd w = false ->
  main e a w
  = (Raise (SystemExit 1),
     add_stdout (MsgNoisyApps (app :: open_apps))
       (add_call PsAux
          (set_dnd true (add_call DndOn (add_call DndStatus w))))).
Proof.
  intros H1 H2 H3 H4 Hn Ho Hd. unfold main, get_args. cbv beta iota zeta.
  rewrite (run_bind_return _ _ _ _ _ (run_dnd_off e w H1 H2)). rewrite Hd.
  now rewrite (run_bind_raise _ _ _ _ _
                 (run_check_noisy e _ text app open_apps Hn H3 H4 Ho)).
Qed.

(** The session whose capture thread delivers no frame. *)
Lemma run_main_empty a w i :
  (forall n c, fails e n c = false) ->
  index_of SOUNDFLOWER (input_devices e) 0 = Some i ->
  fs w !! (temp_name e ++ py ".wav") = None ->
  match noisy_apps_file e with
  | None => True
  | Some text =>
      find_open_apps e (List.filter nonempty (split_lines text)) (ps_aux e)
      = Return []
  end ->
  fst (get_frames (stream_read e) RATE (midi_length e) CHUNK [] 1) = [] ->
  exists w',
    main e a w = (Return tt, w')
    /\ fs w' = <[temp_name e ++ py ".wav" := File Empty]> (fs w)
    /\ output_device w' = output_device w
    /\ dnd w' = dnd w
    /\ calls w'
       = calls w ++ [DndStatus] ++ (if dnd w then [] else [DndOn])
         ++ [match noisy_apps_file e with
             | None => Input (py "<press enter to continue>")
             | Some _ => PsAux
             end;
             Mkstemp (py ".wav"); SwitchQuery; SwitchSet SOUNDFLOWER;
             MidiLength (arg_midi_path a); OpenStream;
             PygamePlay (arg_midi_path a); ProgressBar; ClosePyaudio;
             SwitchSet (output_device w)]
         ++ (if dnd w then [] else [DndOff])
    /\ stdout w'
       = stdout w
         ++ match noisy_apps_file e with
            | None => [MsgNoNoisyAppsFile]
            | Some _ => []
            end
         ++ [MsgExistingDevice (output_device w); MsgSwitching;
             MsgDuration (midi_length e); MsgProgressBar;
             MsgRestoring (output_device w)].
Proof.
  intros Hf Hi Ht Hn Hfr. unfold main, get_args. cbv beta iota zeta.
  rewrite (run_bind_return _ _ _ _ _
             (run_dnd_off e w (fun n => Hf n _) (fun n => Hf n _))).
  set (w1 := if dnd w then add_call DndStatus w
             else set_dnd true (add_call DndOn (add_call DndStatus w))).
  assert (F1 : fs w1 = fs w) by (subst w1; now destruct (dnd w)).
  assert (D1 : output_device w1 = output_device w)
    by (subst w1; now destruct (dnd w)).
  assert (exists w2, check_for_noisy_apps e w1 = (Return tt, w2)
                     /\ fs w2 = fs w /\ output_device w2 = output_device w
                     /\ dnd w2 = true
                     /\ calls w2
                        = calls w1
                          ++ [match noisy_apps_file e with
                              | None => Input (py "<press enter to continue>")
                              | Some _ => PsAux
                              end]
                     /\ stdout w2
                        = stdout w
                          ++ match noisy_apps_file e with
                             | None => [MsgNoNoisyAppsFile]
                             | Some _ => []
                             end)
    as (w2 & E2 & F2 & D2 & N2 & C2 & S2).
  { destruct (noisy_apps_file e) as [text|] eqn:En.
    - eexists. split;
        [apply (run_check_clear e w1 text En (fun n => Hf n _) Hn)|].
      subst w1. destruct (dnd w) eqn:Dw; project;
        rewrite ?app_nil_r; repeat split; auto.
    - eexists. split;
        [apply (run_check_no_file e w1 En (fun n p => Hf n _)
                  (fun n => Hf n _))|].
      subst w1. destruct (dnd w) eqn:Dw; project; repeat split; auto. }
  rewrite (run_bind_return _ _ _ _ _ E2).
  rewrite (run_bind_return _ _ _ _ _
             (run_mkstemp e w2 (py ".wav") (fun n => Hf n _)
                (eq_trans (f_equal (fun m => m !! _) F2) Ht))).
  rewrite (run_bind_return _ _ _ _ _
             (run_get_existing_output_device e _ (fun n => Hf n _)
                (fun n => Hf n _))).
  rewrite (run_bind_return _ _ _ _ _
             (run_soundflower_on e _ (fun n d => Hf n _) (fun n => Hf n _))).
  unfold try_except_else.
  rewrite (run_record_empty e _ _ _ _ _ _ _ i Hf Hi Hfr).
  rewrite (run_bind_return _ _ _ _ _
             (run_soundflower_off e _ _ (fun n d => Hf n _)
                (fun n => Hf n _))).
  rewrite (run_bind_return _ _ _ _ _
             (run_restore_dnd e _ (dnd w) (fun n => Hf n _))).
  eexists. split; [reflexivity|].
  destruct (dnd w) eqn:Dw; project; rewrite ?F2, ?D2, ?C2, ?S2;
    subst w1; project; rewrite <- ?app_assoc; repeat split; auto.
Qed.

End Sessions.

(** ** The order of the restorations *)

Section Sequencing.

Import Pygmid2aud.

Variable e : env.

Lemma Forall_not_In {A} (P : A -> Prop) l x :
  Forall (fun y => ~ P y) l -> In x l -> P x -> False.
Proof.
  intros F Hin Hx. rewrite Forall_forall in F.
  apply list_elem_of_In in Hin. exact (F x Hin Hx).
Qed.

(** Every run of [main], by the calls it issued and the lines it printed:
    it ended before the switch to Soundflower; or in that switch; or,
    after [record], in the switch back; or in the restoration of the
    suppression state; or after both restorations. *)
Lemma main_lists a w o w' l out :
  main e a w = (o, w') ->
  calls w' = calls w ++ l ->
  stdout w' = stdout w ++ out ->
  let d0 := output_device w in
  exists l0 out0,
    Forall (fun c => ~ restores c) l0
    /\ Forall (fun m => ~ announces m) out0
    /\ ((l = l0 /\ out = out0 /\ output_device w' = d0
         /\ forall u, o <> Return u)
        \/ (l = l0 ++ [SwitchSet SOUNDFLOWER] /\ out = out0
            /\ dnd w' = true
            /\ ((exists n, fails e n (SwitchSet SOUNDFLOWER) = true)
                /\ o = Raise (CollaboratorError (SwitchSet SOUNDFLOWER))
                /\ output_device w' = d0
                \/ (exists n, fails e n Print = true)
                   /\ o = Raise (CollaboratorError Print)
                   /\ output_device w' = SOUNDFLOWER))
        \/ exists lrec outrec,
             Forall (fun c => ~ restores c) lrec
             /\ Forall (fun m => ~ announces m) outrec
             /\ ((l = l0 ++ [SwitchSet SOUNDFLOWER] ++ lrec ++ [SwitchSet d0]
                  /\ out = out0 ++ [MsgSwitching] ++ outrec
                  /\ dnd w' = true
                  /\ ((exists n, fails e n (SwitchSet d0) = true)
                      /\ o = Raise (CollaboratorError (SwitchSet d0))
                      /\ output_device w' = SOUNDFLOWER
                      \/ (exists n, fails e n Print = true)
                         /\ o = Raise (CollaboratorError Print)
                         /\ output_device w' = d0))
                 \/ (dnd w = false
                     /\ (exists n, fails e n DndOff = true)
                     /\ l = l0 ++ [SwitchSet SOUNDFLOWER] ++ lrec
                            ++ [SwitchSet d0; DndOff]
                     /\ out = out0 ++ [MsgSwitching] ++ outrec
                              ++ [MsgRestoring d0]
                     /\ o = Raise (CollaboratorError DndOff)
                     /\ output_device w' = d0 /\ dnd w' = true)
                 \/ exists ltail outtail,
                      Forall (fun c => ~ restores c) ltail
                      /\ Forall (fun m => ~ announces m) outtail
                      /\ l = l0 ++ [SwitchSet SOUNDFLOWER] ++ lrec
                             ++ [SwitchSet d0]
                             ++ (if dnd w then [] else [DndOff]) ++ ltail
                      /\ out = out0 ++ [MsgSwitching] ++ outrec
                               ++ [MsgRestoring d0] ++ outtail
                      /\ output_device w' = d0 /\ dnd w' = dnd w)).
Proof.
  intros H El Eo. cbv zeta.
  assert (Lx : forall l', calls w' = calls w ++ l' -> l = l').
  { intros l' E'. rewrite E' in El. now apply app_inv_head in El. }
  assert (Ox : forall out', stdout w' = stdout w ++ out' -> out = out').
  { intros out' E'. rewrite E' in Eo. now apply app_inv_head in Eo. }
  clear El Eo.
  destruct (main_trace e a w o w' H) as [[U Ho] | (w4 & U4 & N4 & Hc)].
  - destruct U as (D & (l0 & El0 & Fl0) & (o0 & Eo0 & Fo0)).
    exists l0, o0. split; [exact Fl0|]. split; [exact Fo0|]. left.
    rewrite (Lx _ El0), (Ox _ Eo0). auto.
  - destruct U4 as (D4 & (l0 & El0 & Fl0) & (o0 & Eo0 & Fo0)).
    exists l0, o0. split; [exact Fl0|]. split; [exact Fo0|]. right.
    cbv zeta in Hc.
    destruct Hc as [(F & Ho & Hw) | [(F & Ho & Hw) | (w6 & U6 & N6 & Hc)]].
    + left. subst o w'.
      rewrite (Lx (l0 ++ [SwitchSet SOUNDFLOWER]))
        by (autorewrite with world; now rewrite El0, <- app_assoc).
      rewrite (Ox o0) by (autorewrite with world; exact Eo0).
      autorewrite with world. repeat split; auto. left. eauto.
    + left. subst o w'.
      rewrite (Lx (l0 ++ [SwitchSet SOUNDFLOWER]))
        by (autorewrite with world; now rewrite El0, <- app_assoc).
      rewrite (Ox o0) by (autorewrite with world; exact Eo0).
      autorewrite with world. repeat split; auto. right. eauto.
    + right. destruct U6 as (D6 & (lrec & El6 & Fl6) & (orec & Eo6 & Fo6)).
      autorewrite with world in D6, El6, Eo6.
      rewrite El0 in El6. rewrite Eo0 in Eo6.
      exists lrec, orec. split; [exact Fl6|]. split; [exact Fo6|].
      destruct Hc as [(F & Ho & Hw) | [(F & Ho & Hw) | Hc]].
      * left. subst o w'.
        rewrite (Lx (l0 ++ [SwitchSet SOUNDFLOWER] ++ lrec
                        ++ [SwitchSet (output_device w)]))
          by (autorewrite with world; rewrite El6; now rewrite <- !app_assoc).
        rewrite (Ox (o0 ++ [MsgSwitching] ++ orec))
          by (autorewrite with world; rewrite Eo6; now rewrite <- !app_assoc).
        autorewrite with world. repeat split; auto. left. eauto.
      * left. subst o w'.
        rewrite (Lx (l0 ++ [SwitchSet SOUNDFLOWER] ++ lrec
                        ++ [SwitchSet (output_device w)]))
          by (autorewrite with world; rewrite El6; now rewrite <- !app_assoc).
        rewrite (Ox (o0 ++ [MsgSwitching] ++ orec))
          by (autorewrite with world; rewrite Eo6; now rewrite <- !app_assoc).
        autorewrite with world. repeat split; auto. right. eauto.
      * destruct Hc as [(Dw & F & Ho & Hw) | (U & N)].
        -- right. left. subst o w'.
           rewrite (Lx (l0 ++ [SwitchSet SOUNDFLOWER] ++ lrec
                           ++ [SwitchSet (output_device w); DndOff]))
             by (autorewrite with world; rewrite El6;
                 now rewrite <- !app_assoc).
           rewrite (Ox (o0 ++ [MsgSwitching] ++ orec
                           ++ [MsgRestoring (output_device w)]))
             by (autorewrite with world; rewrite Eo6;
                 now rewrite <- !app_assoc).
           autorewrite with world. repeat split; eauto.
        -- right. right.
           destruct U as (D8 & (lt & El8 & Fl8) & (ot & Eo8 & Fo8)).
           exists lt, ot. split; [exact Fl8|]. split; [exact Fo8|].
           destruct (dnd w) eqn:Dw; autorewrite with world in D8, El8, Eo8;
             rewrite El6 in El8; rewrite Eo6 in Eo8;
             rewrite <- !app_assoc in El8; rewrite <- !app_assoc in Eo8;
             rewrite (Lx _ El8), (Ox _ Eo8); repeat split; auto.
Qed.

Ltac members :=
  repeat match goal with
         | H : In _ (_ ++ _) |- _ => apply in_app_or in H
         | H : In _ (_ :: _) |- _ => destruct H
         | H : In _ [] |- _ => destruct H
         | H : _ \/ _ |- _ => destruct H
         | H : In ?x ?l, F : Forall _ ?l |- _ =>
             exfalso; exact (Forall_not_In _ _ _ F H I)
         | H : @eq call _ _ |- _ => discriminate H
         | H : @eq message _ _ |- _ => discriminate H
         end.

Ltac is_member := rewrite ?in_app_iff; simpl; tauto.

(** What [main] leaves behind once it tried to reroute the output. *)
Lemma main_sequencing a w o w' l out :
  main e a w = (o, w') ->
  calls w' = calls w ++ l ->
  stdout w' = stdout w ++ out ->
  In (SwitchSet SOUNDFLOWER) l ->
  let d0 := output_device w in
  (~ In MsgSwitching out ->
     dnd w' = true /\ ~ In DndOff l
     /\ (o = Raise (CollaboratorError (SwitchSet SOUNDFLOWER))
         /\ output_device w' = d0
         \/ o = Raise (CollaboratorError Print)
            /\ output_device w' = SOUNDFLOWER))
  /\ (In MsgSwitching out -> ~ In (MsgRestoring d0) out ->
      dnd w' = true /\ ~ In DndOff l
      /\ (o = Raise (CollaboratorError (SwitchSet d0))
          /\ output_device w' = SOUNDFLOWER
          \/ o = Raise (CollaboratorError Print) /\ output_device w' = d0))
  /\ (In (MsgRestoring d0) out ->
      output_device w' = d0
      /\ (dnd w = true -> dnd w' = true /\ ~ In DndOff l)
      /\ (dnd w = false ->
          In DndOff l
          /\ (dnd w' = false
              \/ dnd w' = true /\ o = Raise (CollaboratorError DndOff))))
  /\ ((forall n d, fails e n (SwitchSet d) = false) ->
      (forall n, fails e n DndOff = false) ->
      (forall n, fails e n Print = false) ->
      output_device w' = d0 /\ dnd w' = dnd w).
Proof.
  intros H El Eo Hin. cbv zeta.
  destruct (main_lists a w o w' l out H El Eo)
    as (l0 & o0 & Fl0 & Fo0 & Hc). cbv zeta in Hc.
  destruct Hc
    as [(-> & -> & D & Ho)
       | [(-> & -> & N & Hc)
         | (lrec & orec & Flr & For &
            [(-> & -> & N & Hc)
            | [(Dw & F & -> & -> & -> & D & N)
              | (lt & ot & Flt & Fot & -> & -> & D & N)]])]].
  - members.
  - split; [|split; [|split]].
    + intros _. split; [exact N|]. split; [intros Hd; members|].
      destruct Hc as [(_ & -> & D) | (_ & -> & D)]; auto.
    + intros Hs. members.
    + intros Hs. members.
    + intros Hsw Hdnd Hpr.
      destruct Hc as [([n F] & _) | ([n F] & _)];
        [rewrite Hsw in F | rewrite Hpr in F]; discriminate.
  - split; [|split; [|split]].
    + intros Hno. exfalso. apply Hno. is_member.
    + intros _ _. split; [exact N|]. split; [intros Hd; members|].
      destruct Hc as [(_ & -> & D) | (_ & -> & D)]; auto.
    + intros Hs. members.
    + intros Hsw Hdnd Hpr.
      destruct Hc as [([n F] & _) | ([n F] & _)];
        [rewrite Hsw in F | rewrite Hpr in F]; discriminate.
  - split; [|split; [|split]].
    + intros Hno. exfalso. apply Hno. is_member.
    + intros _ Hno. exfalso. apply Hno. is_member.
    + intros _. split; [exact D|]. split; [congruence|].
      intros _. split; [is_member | auto].
    + intros Hsw Hdnd Hpr. destruct F as [n F]. rewrite Hdnd in F.
      discriminate.
  - split; [|split; [|split]].
    + intros Hno. exfalso. apply Hno. is_member.
    + intros _ Hno. exfalso. apply Hno. is_member.
    + intros _. split; [exact D|]. split.
      * intros Dw. rewrite Dw in *. split; [exact N|]. intros Hd. members.
      * intros Dw. rewrite Dw in *. split; [is_member | auto].
    + intros _ _ _. auto.
Qed.

End Sequencing.

(** C2, as stated, fails.  When [record] raises and switching the output
    back fails too, the suppression state is never restored (no
    [do-not-disturb off] is issued) and stays on although it was off.  And
    when the line announcing the switch to Soundflower cannot be printed,
    the error leaves [main] before the [try] statement is entered: neither
    restoration is attempted and the output stays on Soundflower. *)
Lemma restoration_both_attempted_counterexample :
  let r := Pygmid2aud.main Scenarios.restore_fails Scenarios.to_m4a
             Scenarios.desk in
  let r' := Pygmid2aud.main Scenarios.announce_fails Scenarios.to_m4a
              Scenarios.desk in
  (fst r = Raise (CollaboratorError (SwitchSet Scenarios.BUILTIN))
   /\ Pygmid2aud.calls (snd r)
      = [DndStatus; DndOn; PsAux; Mkstemp (py ".wav"); SwitchQuery;
         SwitchSet Pygmid2aud.SOUNDFLOWER; MidiLength (py "/music/song.mid");
         SwitchSet Scenarios.BUILTIN]
   /\ ~ In DndOff (Pygmid2aud.calls (snd r))
   /\ Pygmid2aud.dnd Scenarios.desk = false
   /\ Pygmid2aud.dnd (snd r) = true
   /\ Pygmid2aud.output_device (snd r) = Pygmid2aud.SOUNDFLOWER)
  /\ (fst r' = Raise (CollaboratorError Print)
      /\ Pygmid2aud.calls (snd r')
         = [DndStatus; DndOn; PsAux; Mkstemp (py ".wav"); SwitchQuery;
            SwitchSet Pygmid2aud.SOUNDFLOWER]
      /\ Pygmid2aud.output_device Scenarios.desk = Scenarios.BUILTIN
      /\ Pygmid2aud.output_device (snd r') = Pygmid2aud.SOUNDFLOWER
      /\ Pygmid2aud.dnd (snd r') = true).
Proof.
  vm_compute. repeat split; try reflexivity.
  intros H. repeat (destruct H as [H|H]; [discriminate H|]). exact H.
Qed.

(** C2, amended.  Take any run of [main] that got as far as trying to
    reroute the output, whatever failed in it and however it ended; [d0] is
    the output device found at the start.
    - If the switch to Soundflower was not announced, the error is the one
      of the switching command (the device is unchanged) or the one of the
      print that follows it (the device stays on Soundflower); the [try]
      statement is not entered, neither restoration is attempted, and the
      suppression state stays on.
    - Once the switch was announced, the switch back to [d0] is attempted
      after [record], first.  If it does not complete, its own error is
      the one that leaves [main] (the one of the command, the device
      staying on Soundflower, or the one of the print after it), no
      [do-not-disturb off] is issued and the suppression state stays on.
    - If it completes, the device is [d0] again; [do-not-disturb off] is
      issued exactly when suppression was off at the start, and the
      suppression state is back at its value from the start unless that
      command fails, in which case its error leaves [main].
    - So, when the restoring commands and the prints do not fail, the
      device and the suppression state are those from the start when the
      error leaves [main]. *)
Theorem main_failure_restores_system :
  forall e a w o w' l out,
    Pygmid2aud.main e a w = (o, w') ->
    Pygmid2aud.calls w' = Pygmid2aud.calls w ++ l ->
    Pygmid2aud.stdout w' = Pygmid2aud.stdout w ++ out ->
    In (SwitchSet Pygmid2aud.SOUNDFLOWER) l ->
    let d0 := Pygmid2aud.output_device w in
    (~ In Pygmid2aud.MsgSwitching out ->
       Pygmid2aud.dnd w' = true /\ ~ In DndOff l
       /\ (o = Raise (CollaboratorError (SwitchSet Pygmid2aud.SOUNDFLOWER))
           /\ Pygmid2aud.output_device w' = d0
           \/ o = Raise (CollaboratorError Print)
              /\ Pygmid2aud.output_device w' = Pygmid2aud.SOUNDFLOWER))
    /\ (In Pygmid2aud.MsgSwitching out ->
        ~ In (Pygmid2aud.MsgRestoring d0) out ->
        Pygmid2aud.dnd w' = true /\ ~ In DndOff l
        /\ (o = Raise (CollaboratorError (SwitchSet d0))
            /\ Pygmid2aud.output_device w' = Pygmid2aud.SOUNDFLOWER
            \/ o = Raise (CollaboratorError Print)
               /\ Pygmid2aud.output_device w' = d0))
    /\ (In (Pygmid2aud.MsgRestoring d0) out ->
        Pygmid2aud.output_device w' = d0
        /\ (Pygmid2aud.dnd w = true ->
            Pygmid2aud.dnd w' = true /\ ~ In DndOff l)
        /\ (Pygmid2aud.dnd w = false ->
            In DndOff l
            /\ (Pygmid2aud.dnd w' = false
                \/ Pygmid2aud.dnd w' = true
                   /\ o = Raise (CollaboratorError DndOff))))
    /\ ((forall n d, Pygmid2aud.fails e n (SwitchSet d) = false) ->
        (forall n, Pygmid2aud.fails e n DndOff = false) ->
        (forall n, Pygmid2aud.fails e n Print = false) ->
        Pygmid2aud.output_device w' = d0
        /\ Pygmid2aud.dnd w' = Pygmid2aud.dnd w).
Proof. intros e a w o w' l out. apply main_sequencing. Qed.

Lemma main_failure_restores_system_witness :
  let r := Pygmid2aud.main Scenarios.restore_fails Scenarios.to_m4a
             Scenarios.desk in
  Pygmid2aud.dnd (snd r) = true
  /\ ~ In DndOff
       [DndStatus; DndOn; PsAux; Mkstemp (py ".wav"); SwitchQuery;
        SwitchSet Pygmid2aud.SOUNDFLOWER; MidiLength (py "/music/song.mid");
        SwitchSet Scenarios.BUILTIN]
  /\ (fst r = Raise (CollaboratorError (SwitchSet Scenarios.BUILTIN))
      /\ Pygmid2aud.output_device (snd r) = Pygmid2aud.SOUNDFLOWER
      \/ fst r = Raise (CollaboratorError Print)
         /\ Pygmid2aud.output_device (snd r) = Scenarios.BUILTIN).
Proof.
  cbv zeta.
  destruct (main_failure_restores_system Scenarios.restore_fails
              Scenarios.to_m4a Scenarios.desk
              (fst (Pygmid2aud.main Scenarios.restore_fails Scenarios.to_m4a
                      Scenarios.desk))
              (snd (Pygmid2aud.main Scenarios.restore_fails Scenarios.to_m4a
                      Scenarios.desk))
              [DndStatus; DndOn; PsAux; Mkstemp (py ".wav"); SwitchQuery;
               SwitchSet Pygmid2aud.SOUNDFLOWER;
               MidiLength (py "/music/song.mid");
               SwitchSet Scenarios.BUILTIN]
              [Pygmid2aud.MsgExistingDevice Scenarios.BUILTIN;
               Pygmid2aud.MsgSwitching;
               Pygmid2aud.MsgDuration (PyFloat.of_int 5)])
    as (_ & H & _).
  - apply surjective_pairing.
  - vm_compute. reflexivity.
  - vm_compute. reflexivity.
  - simpl. tauto.
  - apply H.
    + simpl. tauto.
    + simpl. intros [E|[E|[E|[]]]]; discriminate E.
Defined.

(** C3 (the code departs from the specification).  With Zoom on the
    denylist and running and notifications not suppressed, [main] exits
    with status 1 after
    having switched do-not-disturb on, and without switching it off again:
    [dnd_off] runs before [check_for_noisy_apps].  The audio device and the
    disk are untouched. *)
Theorem noisy_exit_leaves_suppression_on :
  let r := Pygmid2aud.main Scenarios.zoom_running Scenarios.to_m4a
             Scenarios.desk in
  fst r = Raise (SystemExit 1)
  /\ Pygmid2aud.calls (snd r) = [DndStatus; DndOn; PsAux]
  /\ Pygmid2aud.stdout (snd r) = [Pygmid2aud.MsgNoisyApps [py "Zoom"]]
  /\ Pygmid2aud.dnd Scenarios.desk = false
  /\ Pygmid2aud.dnd (snd r) = true
  /\ Pygmid2aud.output_device (snd r)
     = Pygmid2aud.output_device Scenarios.desk
  /\ Pygmid2aud.fs (snd r) = Pygmid2aud.fs Scenarios.desk.
Proof.
  cbv zeta.
  assert (Ho : Pygmid2aud.find_open_apps Scenarios.zoom_running
                 (List.filter Pygmid2aud.nonempty
                    (Pygmid2aud.split_lines
                       (py "Zoom" ++ ["010"%char] ++ py "Slack"
                          ++ ["010"%char])))
                 (Pygmid2aud.ps_aux Scenarios.zoom_running)
               = Return [py "Zoom"])
    by (vm_compute; reflexivity).
  rewrite (run_main_noisy Scenarios.zoom_running Scenarios.to_m4a
             Scenarios.desk _ (py "Zoom") []
             (fun _ => eq_refl) (fun _ => eq_refl) (fun _ => eq_refl)
             (fun _ => eq_refl) eq_refl Ho eq_refl).
  cbn [fst snd]. autorewrite with world. repeat split; reflexivity.
Qed.

(** C8, as stated, fails: when the stream yields no frame the session ends
    normally, but the temporary ".wav" file exists on disk afterwards
    (created empty by [mkstemp] before the capture), and nothing printed
    tells the user that nothing was captured: the output is the one of any
    session up to the restoration of the device. *)
Lemma empty_capture_counterexample :
  let r := Pygmid2aud.main Scenarios.dead_stream Scenarios.to_m4a
             Scenarios.desk in
  fst r = Return tt
  /\ Pygmid2aud.fs Scenarios.desk !! py "/tmp/tmpq1w2e3.wav" = None
  /\ Pygmid2aud.fs (snd r) !! py "/tmp/tmpq1w2e3.wav"
     = Some (Pygmid2aud.File Pygmid2aud.Empty)
  /\ Pygmid2aud.stdout (snd r)
     = [Pygmid2aud.MsgExistingDevice Scenarios.BUILTIN;
        Pygmid2aud.MsgSwitching;
        Pygmid2aud.MsgDuration (PyFloat.of_int 5);
        Pygmid2aud.MsgProgressBar;
        Pygmid2aud.MsgRestoring Scenarios.BUILTIN].
Proof. vm_compute. repeat split; reflexivity. Qed.

(** C8, amended.  When no collaborator fails, the noisy-app check passes
    and the capture thread delivers no frame, [main] returns normally; no
    wav data is written and neither [write_to_output_path] nor the
    transcoder runs, so that the only file created is the empty temporary
    file of [mkstemp]; the device and the suppression state are restored;
    and nothing is printed beyond the messages of every session. *)
Theorem empty_capture_writes_no_output :
  forall e a w i,
    (forall n c, Pygmid2aud.fails e n c = false) ->
    Pygmid2aud.index_of Pygmid2aud.SOUNDFLOWER (Pygmid2aud.input_devices e) 0
    = Some i ->
    Pygmid2aud.fs w !! (Pygmid2aud.temp_name e ++ py ".wav") = None ->
    match Pygmid2aud.noisy_apps_file e with
    | None => True
    | Some text =>
        Pygmid2aud.find_open_apps e
          (List.filter Pygmid2aud.nonempty (Pygmid2aud.split_lines text))
          (Pygmid2aud.ps_aux e)
        = Return []
    end ->
    fst (Pygmid2aud.get_frames (Pygmid2aud.stream_read e) Pygmid2aud.RATE
           (Pygmid2aud.midi_length e) Pygmid2aud.CHUNK [] 1) = [] ->
    exists w',
      Pygmid2aud.main e a w = (Return tt, w')
      /\ Pygmid2aud.fs w'
         = <[Pygmid2aud.temp_name e ++ py ".wav"
             := Pygmid2aud.File Pygmid2aud.Empty]> (Pygmid2aud.fs w)
      /\ Pygmid2aud.output_device w' = Pygmid2aud.output_device w
      /\ Pygmid2aud.dnd w' = Pygmid2aud.dnd w
      /\ Pygmid2aud.calls w'
         = Pygmid2aud.calls w ++ [DndStatus]
           ++ (if Pygmid2aud.dnd w then [] else [DndOn])
           ++ [match Pygmid2aud.noisy_apps_file e with
               | None => Input (py "<press enter to continue>")
               | Some _ => PsAux
               end;
               Mkstemp (py ".wav"); SwitchQuery;
               SwitchSet Pygmid2aud.SOUNDFLOWER;
               MidiLength (Pygmid2aud.arg_midi_path a); OpenStream;
               PygamePlay (Pygmid2aud.arg_midi_path a); ProgressBar;
               ClosePyaudio; SwitchSet (Pygmid2aud.output_device w)]
           ++ (if Pygmid2aud.dnd w then [] else [DndOff])
      /\ Pygmid2aud.stdout w'
         = Pygmid2aud.stdout w
           ++ match Pygmid2aud.noisy_apps_file e with
              | None => [Pygmid2aud.MsgNoNoisyAppsFile]
              | Some _ => []
              end
           ++ [Pygmid2aud.MsgExistingDevice (Pygmid2aud.output_device w);
               Pygmid2aud.MsgSwitching;
               Pygmid2aud.MsgDuration (Pygmid2aud.midi_length e);
               Pygmid2aud.MsgProgressBar;
               Pygmid2aud.MsgRestoring (Pygmid2aud.output_device w)].
Proof. intros e a w i. apply run_main_empty. Qed.

Lemma empty_capture_writes_no_output_witness :
  exists w',
    Pygmid2aud.main Scenarios.dead_stream Scenarios.to_m4a Scenarios.desk
    = (Return tt, w')
    /\ Pygmid2aud.fs w'
       = <[py "/tmp/tmpq1w2e3" ++ py ".wav"
           := Pygmid2aud.File Pygmid2aud.Empty]>
           (Pygmid2aud.fs Scenarios.desk)
    /\ Pygmid2aud.dnd w' = false.
Proof.
  destruct (empty_capture_writes_no_output Scenarios.dead_stream
              Scenarios.to_m4a Scenarios.desk 1%nat)
    as (w' & E & F & _ & N & _).
  - intros n c. reflexivity.
  - reflexivity.
  - vm_compute. reflexivity.
  - vm_compute. reflexivity.
  - vm_compute. reflexivity.
  - exists w'. split; [exact E | split; [exact F | exact N]].
Defined.

(** ** Writing the output *)

Section Output.

Import Pygmid2aud.

Variable e : env.

(** Without [overwrite], the path [increment_fname] returns is free. *)
Lemma increment_loop_free lg fuel : forall scan_fuel ex path n allow p,
  increment_loop lg fuel scan_fuel ex path n false allow = Return p ->
  ex p = false.
Proof.
  induction fuel as [|fuel IH]; intros sf ex path n allow p H; simpl in H.
  - discriminate.
  - destruct (_sub lg sf allow path n) as [q| |]; simpl in H; try discriminate.
    destruct (ex q) eqn:E; simpl in H.
    + eapply IH. exact H.
    + now simplify_eq.
Qed.

Lemma run_shutil_move w src dst n :
  fails e (length (calls w)) (Move src dst) = false ->
  fs w !! src = Some n -> fs w !! dst <> Some Dir ->
  shutil_move e src dst w
  = (Return tt,
     set_fs (<[dst := n]> (delete src (fs w))) (add_call (Move src dst) w)).
Proof.
  intros Hf Hs Hd. unfold shutil_move.
  rewrite (run_bind_return _ _ _ _ _ (run_external e _ w Hf)).
  unfold mbind, prog_bind, gets, id. autorewrite with world. rewrite Hs.
  destruct (fs w !! dst) as [[c|]|]; try reflexivity. congruence.
Qed.

Lemma write_to_wav_overwrite_unused midi out temp ow ow' :
  endswith out (py ".wav") = true ->
  write_to_output_path e midi (Some out) temp ow
  = write_to_output_path e midi (Some out) temp ow'.
Proof. intros H. unfold write_to_output_path. now rewrite H. Qed.

Lemma path_exists_present w p : is_Some (fs w !! p) -> path_exists w p = true.
Proof. intros H. unfold path_exists. now apply bool_decide_eq_true_2. Qed.

Lemma run_write_to_wav midi out temp ow w n :
  endswith out (py ".wav") = true ->
  is_Some (fs w !! dirname out) ->
  fs w !! temp = Some n -> fs w !! out <> Some Dir ->
  fails e (length (calls w)) (Move temp out) = false ->
  (forall k, fails e k Print = false) ->
  write_to_output_path e midi (Some out) temp ow w
  = (Return tt,
     add_stdout (MsgOutputWritten out)
       (set_fs (<[out := n]> (delete temp (fs w)))
          (add_call (Move temp out) w))).
Proof.
  intros Hw Hd Ht Ho Hf Hp. unfold write_to_output_path. rewrite Hw.
  unfold mbind at 1, prog_bind at 1, gets at 1, id.
  rewrite (path_exists_present w _ Hd). cbn [negb].
  unfold mbind at 1, prog_bind at 1, mret at 1, prog_ret at 1.
  rewrite (run_bind_return _ _ _ _ _
             (run_shutil_move w temp out n Hf Ht Ho)).
  now rewrite run_print by apply Hp.
Qed.

Lemma app_self_nil {A} (a l : list A) : a = a ++ l -> l = [].
Proof.
  intros H. rewrite <- (app_nil_r a) in H at 1.
  now apply app_inv_head in H.
Qed.

(** On the transcoding branch without [overwrite], the destination handed
    to ffmpeg did not exist. *)
Lemma transcode_target_free midi out temp w o w' l dst :
  endswith out (py ".wav") = false ->
  is_Some (fs w !! dirname out) ->
  write_to_output_path e midi (Some out) temp false w = (o, w') ->
  calls w' = calls w ++ l -> In (Ffmpeg false temp dst) l ->
  fs w !! dst = None.
Proof.
  intros Hw Hd H El Hin. unfold write_to_output_path in H. rewrite Hw in H.
  unfold mbind at 1, prog_bind at 1, gets at 1, id in H.
  rewrite (path_exists_present w _ Hd) in H. cbn [negb] in H.
  unfold mbind at 1, prog_bind at 1, mret at 1, prog_ret at 1 in H.
  unfold mbind at 1, prog_bind at 1, gets at 1, id in H. cbn [negb] in H.
  unfold mbind at 1, prog_bind at 1, lift at 1 in H.
  destruct (increment_fname (math_log10_big e) (fuel e) (path_exists w) out 2 false true)
    as [p| |] eqn:Ei.
  - apply increment_loop_free in Ei.
    apply bind_inv in H as [(u & w1 & Hp & H) | [(ex & Hp & ->) | [Hp ->]]];
      unfold print in Hp; destruct (fails e (length (calls w)) Print);
      simplify_eq;
      try (apply app_self_nil in El; subst l; now destruct Hin).
    assert (Ec : calls w' = calls w ++ [Ffmpeg false temp p]).
    { unfold ffmpeg, mbind, prog_bind, external, gets, id, raise, put_file,
        modify in H.
      repeat match type of H with
             | context [if ?b then _ else _] => destruct b
             | context [match ?x with _ => _ end] => destruct x
             end; simplify_eq; now autorewrite with world. }
    rewrite Ec in El.
    apply app_inv_head in El. subst l. destruct Hin as [Hin|[]].
    simplify_eq. unfold path_exists in Ei.
    apply bool_decide_eq_false in Ei.
    destruct (fs w !! dst); [exfalso; apply Ei; eauto | reflexivity].
  - assert (Hw' : w' = w) by (now inversion H). rewrite Hw' in El.
    rewrite <- (app_nil_r (calls w)) in El at 1.
    apply app_inv_head in El. subst l. destruct Hin.
  - assert (Hw' : w' = w) by (now inversion H). rewrite Hw' in El.
    rewrite <- (app_nil_r (calls w)) in El at 1.
    apply app_inv_head in El. subst l. destruct Hin.
Qed.

End Output.

(** C10.  When the output path ends in ".wav", [write_to_output_path] does
    not depend on the overwrite flag; once the destination directory exists
    it issues the single call [shutil.move] and the file at exactly that
    path holds what the temporary file held, whatever was there before,
    without any call of [increment_fname].  On the transcoding branch
    without [overwrite], the path handed to ffmpeg was free. *)
Theorem write_to_wav_moves_unconditionally :
  forall e midi out temp w n,
    endswith out (py ".wav") = true ->
    (forall ow ow',
        Pygmid2aud.write_to_output_path e midi (Some out) temp ow
        = Pygmid2aud.write_to_output_path e midi (Some out) temp ow')
    /\ (is_Some (Pygmid2aud.fs w !! dirname out) ->
        Pygmid2aud.fs w !! temp = Some n ->
        Pygmid2aud.fs w !! out <> Some Pygmid2aud.Dir ->
        Pygmid2aud.fails e (length (Pygmid2aud.calls w)) (Move temp out)
        = false ->
        (forall k, Pygmid2aud.fails e k Print = false) ->
        forall ow,
          Pygmid2aud.write_to_output_path e midi (Some out) temp ow w
          = (Return tt,
             Pygmid2aud.add_stdout (Pygmid2aud.MsgOutputWritten out)
               (Pygmid2aud.set_fs
                  (<[out := n]> (delete temp (Pygmid2aud.fs w)))
                  (Pygmid2aud.add_call (Move temp out) w))))
    /\ (forall out' o w' l dst,
          endswith out' (py ".wav") = false ->
          is_Some (Pygmid2aud.fs w !! dirname out') ->
          Pygmid2aud.write_to_output_path e midi (Some out') temp false w
          = (o, w') ->
          Pygmid2aud.calls w' = Pygmid2aud.calls w ++ l ->
          In (Ffmpeg false temp dst) l ->
          Pygmid2aud.fs w !! dst = None).
Proof.
  intros e midi out temp w n Hw. split; [|split].
  - intros ow ow'. now apply write_to_wav_overwrite_unused.
  - intros Hd Ht Ho Hf Hp ow. now apply run_write_to_wav.
  - intros out' o w' l dst. apply transcode_target_free.
Qed.

Lemma write_to_wav_moves_unconditionally_witness :
  Pygmid2aud.write_to_output_path Scenarios.calm (py "/music/song.mid")
    (Some (py "/music/take.wav")) (py "/tmp/tmpq1w2e3.wav") false
    Scenarios.captured
  = (Return tt,
     Pygmid2aud.add_stdout
       (Pygmid2aud.MsgOutputWritten (py "/music/take.wav"))
       (Pygmid2aud.set_fs
          (<[py "/music/take.wav"
             := Pygmid2aud.File (Pygmid2aud.Wav 2 2 44100 (py "abab"))]>
             (delete (py "/tmp/tmpq1w2e3.wav")
                (Pygmid2aud.fs Scenarios.captured)))
          (Pygmid2aud.add_call
             (Move (py "/tmp/tmpq1w2e3.wav") (py "/music/take.wav"))
             Scenarios.captured))).
Proof.
  apply (write_to_wav_moves_unconditionally Scenarios.calm
           (py "/music/song.mid") (py "/music/take.wav")
           (py "/tmp/tmpq1w2e3.wav") Scenarios.captured
           (Pygmid2aud.File (Pygmid2aud.Wav 2 2 44100 (py "abab")))).
  - vm_compute. reflexivity.
  - vm_compute. eexists. reflexivity.
  - vm_compute. reflexivity.
  - vm_compute. discriminate.
  - reflexivity.
  - intros k. reflexivity.
Defined.

(** ** Sanity checks of the embedding *)

Example splitext_txt : splitext (py "file5.txt") = (py "file5", py ".txt").
Proof. reflexivity. Qed.

Example splitext_hidden :
  splitext (py "dir.d/.profile") = (py "dir.d/.profile", []).
Proof. reflexivity. Qed.

Example py_int_examples :
  py_int (py "007") = Some 7 /\ py_int (py " -5") = Some (-5) /\
  py_int (py "1_000") = Some 1000 /\ py_int (py "e5") = None /\
  py_int (py "") = None /\ py_int (py "_5") = None /\ py_int (py "+") = None
  /\ py_int ["031"%char; "7"%char] = None
  /\ py_int ["160"%char; "7"%char; "009"%char] = Some 7.
Proof. repeat split; reflexivity. Qed.

Example increment_skips_existing :
  increment_fname (fun _ _ => false) 5
    (fun p => bool_decide (p = py "a/b07.m4a") || bool_decide (p = py "a/b08.m4a"))
    (py "a/b06.m4a") 2 false true
  = Return (py "a/b09.m4a").
Proof. vm_compute. reflexivity. Qed.

Example dirname_examples :
  dirname (py "/music/take.wav") = py "/music" /\ dirname (py "take.wav") = [].
Proof. split; reflexivity. Qed.

(** A bare file name has the empty directory name, which does not exist
    and which [os.makedirs] refuses. *)
Example write_to_bare_name :
  fst (Pygmid2aud.write_to_output_path Scenarios.calm (py "song.mid")
         (Some (py "take.wav")) (py "/tmp/tmpq1w2e3.wav") false
         Scenarios.captured)
  = Raise (FileNotFoundError []).
Proof. vm_compute. reflexivity. Qed.

(** A whole session with a ".wav" output path that already exists: the old
    file is replaced and the temporary file is gone. *)
Example session_to_wav :
  let r := Pygmid2aud.main Scenarios.calm Scenarios.to_wav Scenarios.desk in
  fst r = Return tt
  /\ Pygmid2aud.fs (snd r) !! py "/music/take.wav"
     = Some (Pygmid2aud.File
               (Pygmid2aud.Wav 2 2 44100 (concat (repeat (py "ab") 259))))
  /\ Pygmid2aud.fs (snd r) !! py "/tmp/tmpq1w2e3.wav" = None.
Proof. vm_compute. repeat split; reflexivity. Qed.

Example session_to_m4a :
  let r := Pygmid2aud.main Scenarios.calm Scenarios.to_m4a Scenarios.desk in
  fst r = Return tt
  /\ Pygmid2aud.fs (snd r) !! py "/music/song01.m4a"
     = Some (Pygmid2aud.File
               (Pygmid2aud.Converted
                  (Pygmid2aud.Wav 2 2 44100
                     (concat (repeat (py "ab") 259))))).
Proof. vm_compute. split; reflexivity. Qed.

(* ===================================================================== *)
(** * Part III: further properties of the code                            *)
(* ===================================================================== *)


(** X1.  [int(str(n).zfill(w)) == n] for every [n >= 0] and every width:
    the counter written by [_sub] is read back by the scan as the same
    number. *)
Theorem py_int_zfill_py_str :
  forall n w, 0 <= n -> py_int (zfill (py_str n) w) = Some n.
Proof. exact int_zfill_str. Qed.

Lemma py_int_zfill_py_str_witness :
  py_int (zfill (py_str 42) 5) = Some 42.
Proof. apply py_int_zfill_py_str. lia. Defined.



(** X2.  With digit-width growth permitted, [increment_fname] never raises:
    the only exception it can raise is the digit overflow, and only when
    growth is forbidden (in particular the [int] call in the handler of the
    scan never fails). *)
Theorem increment_fname_raises_only_overflow :
  forall log10_big fuel exists_ path n_digits overwrite allow e,
    increment_fname log10_big fuel exists_ path n_digits overwrite allow = Raise e ->
    allow = false
    /\ e = NotImplementedError "Too many digits to increment".
Proof.
  intros lg fuel ex path n ow allow e. unfold increment_fname.
  apply increment_loop_raises_only_overflow.
Qed.

Lemma increment_fname_raises_only_overflow_witness :
  false = false
  /\ NotImplementedError "Too many digits to increment"
     = NotImplementedError "Too many digits to increment".
Proof.
  apply (increment_fname_raises_only_overflow (fun _ _ => false) 4
           (fun _ => false) (py "file999.txt") 3 false false).
  vm_compute. reflexivity.
Defined.

(** X3.  When the stem contains a character that cannot occur in an integer
    literal (a letter, a dot, a slash, ...) and growth is permitted, one
    step of the increment returns a path, within [length stem + 1]
    iterations of the scan. *)
Theorem sub_returns_on_ordinary_stem :
  forall log10_big path n_digits root ext,
    splitext path = (root, ext) ->
    existsb (fun c => negb (int_char c)) root = true ->
    exists p, _sub log10_big (S (length root)) true path n_digits = Return p.
Proof.
  intros log10_big path n root ext Hs Hc.
  destruct (scan_not_literal_returns n root (not_literal root Hc)) as [r Hr].
  pose proof (sub_raises_only_overflow log10_big (S (length root)) true
                path n) as Hx.
  destruct (_sub log10_big (S (length root)) true path n) as [p|e|] eqn:E.
  - eauto.
  - destruct (Hx e eq_refl) as [Hf _]. discriminate.
  - exfalso. unfold _sub in E. rewrite Hs, Hr in E.
    destruct r as [[count base] nd]. simpl in E.
    destruct count as [c|]; simpl in E; [|discriminate].
    destruct (c <? 0); simpl in E; [discriminate|].
    destruct (log10_ge log10_big (c + 1) nd); simpl in E; discriminate.
Qed.

Lemma sub_returns_on_ordinary_stem_witness :
  exists p, _sub (fun _ _ => false) 8 true (py "a/take 12.m4a") 3 = Return p.
Proof.
  apply (sub_returns_on_ordinary_stem (fun _ _ => false) (py "a/take 12.m4a")
           3 (py "a/take 12") (py ".m4a")); reflexivity.
Defined.

(** X4.  A stem that ends, after an ordinary character, in a counter
    written as [str(c).zfill(w)] is incremented to the counter [c + 1] at
    the same number of digits [k], or at [k + 1] digits when
    [math.log10(c + 1) >= k] and growth is permitted (the overflow error
    when it is not), whatever the minimum digit width passed.  For a
    counter below [10 ^ 14 - 1] the test is [c + 1 >= 10 ^ k]. *)
Theorem sub_increments_counter :
  forall log10_big fuel allow path n_digits base c w ext,
    splitext path = (base ++ zfill (py_str c) w, ext) ->
    0 <= c ->
    ends_ordinary base = true ->
    (length (zfill (py_str c) w) < fuel)%nat ->
    let k := Z.of_nat (length (zfill (py_str c) w)) in
    _sub log10_big fuel allow path n_digits
    = (if log10_ge log10_big (c + 1) k then
         if allow
         then Return (base ++ zfill (py_str (c + 1)) (k + 1) ++ ext)
         else Raise (NotImplementedError "Too many digits to increment")
       else Return (base ++ zfill (py_str (c + 1)) k ++ ext))
    /\ (c + 1 < 10 ^ 14 ->
        _sub log10_big fuel allow path n_digits
        = if 10 ^ k <=? c + 1 then
            if allow
            then Return (base ++ zfill (py_str (c + 1)) (k + 1) ++ ext)
            else Raise (NotImplementedError "Too many digits to increment")
          else Return (base ++ zfill (py_str (c + 1)) k ++ ext)).
Proof.
  intros lg fuel allow path n base c w ext Hs Hc Hb Hf k.
  destruct (py_str_digits c Hc) as [Hne Hd].
  destruct (zfill_all_digits (py_str c) w Hd Hne) as [Hzd Hzne].
  assert (Hsub : _sub lg fuel allow path n
                 = (if log10_ge lg (c + 1) k then
                      if allow
                      then Return (base ++ zfill (py_str (c + 1)) (k + 1)
                                     ++ ext)
                      else Raise (NotImplementedError
                                    "Too many digits to increment")
                    else Return (base ++ zfill (py_str (c + 1)) k ++ ext))).
  { apply (sub_found lg fuel allow path n _ ext c base k Hs); [|exact Hc].
    apply scan_counter; auto. now apply int_zfill_str. }
  split; [exact Hsub|].
  intros Hsmall. rewrite Hsub. now rewrite (log10_ge_small lg _ k Hsmall).
Qed.

Lemma sub_increments_counter_witness :
  _sub (fun _ _ => true) 4 true (py "take07.m4a") 3
  = Return (py "take08.m4a").
Proof.
  destruct (sub_increments_counter (fun _ _ => true) 4 true
              (py "take07.m4a") 3 (py "take") 7 2 (py ".m4a"))
    as [_ H].
  - reflexivity.
  - lia.
  - reflexivity.
  - vm_compute. lia.
  - apply H. reflexivity.
Defined.

Section IncrementInvariant.

Variable log10_big : Z -> Z -> bool.

Lemma get_int_loop_none fuel : forall n s i b w,
  get_int_loop fuel n s i = Return (None, b, w) -> b = s /\ w = n.
Proof.
  induction fuel as [|fuel IH]; intros n s i b w H; simpl in H.
  - discriminate.
  - destruct (py_int (last_chars (i + 1) s)); [eapply IH; eauto|].
    destruct (i =? 0)%nat; [now simplify_eq|].
    destruct (py_int (last_chars i s)); discriminate.
Qed.

Lemma counter_digits c w :
  0 <= c ->
  zfill (py_str (c + 1)) w <> []
  /\ forallb is_digit (zfill (py_str (c + 1)) w) = true.
Proof.
  intros Hc. destruct (py_str_digits (c + 1)) as [Hne Hd]; [lia|].
  destruct (zfill_all_digits (py_str (c + 1)) w Hd Hne). now split.
Qed.

(** Where the scan stops, the suffix one character longer does not
    parse. *)
Lemma get_int_loop_stop fuel : forall n s i c b w,
  get_int_loop fuel n s i = Return (c, b, w) ->
  exists k, py_int (last_chars (k + 1) s) = None
            /\ (c = None /\ k = 0%nat \/ c <> None /\ w = Z.of_nat k).
Proof.
  induction fuel as [|fuel IH]; intros n s i c b w H; simpl in H.
  - discriminate.
  - destruct (py_int (last_chars (i + 1) s)) as [v|] eqn:E.
    + eapply IH. exact H.
    + exists i. split; [exact E|].
      destruct (i =? 0)%nat eqn:Ei.
      * apply Nat.eqb_eq in Ei. simplify_eq. now left.
      * destruct (py_int (last_chars i s)); [|discriminate].
        simplify_eq. now right.
Qed.

Lemma sub_shape fuel allow path n p :
  _sub log10_big fuel allow path n = Return p ->
  exists base old counter,
    fst (splitext path) = base ++ old
    /\ p = base ++ counter ++ snd (splitext path)
    /\ counter <> [] /\ forallb is_digit counter = true
    /\ (old = [] \/ exists v, py_int old = Some v)
    /\ forallb int_char old = true
    /\ py_int (last_chars (length old + 1) (fst (splitext path))) = None.
Proof.
  unfold _sub, _get_int_at_end_of_string.
  destruct (splitext path) as [root ext]. simpl fst. simpl snd.
  destruct (get_int_loop fuel n root 0) as [[[count base] nd]|e|] eqn:E;
    simpl; try discriminate.
  destruct (get_int_loop_stop _ _ _ _ _ _ _ E) as (k' & Hstop & Hk').
  destruct count as [c|]; simpl.
  - destruct (get_int_loop_found fuel n root 0%nat c base nd)
      as (k & -> & Hk & -> & Hv); auto.
    destruct Hk' as [[? _] | [_ Ek]]; [discriminate|].
    apply Nat2Z.inj in Ek. subst k'.
    assert (Hroot : root = drop_last k root ++ last_chars k root)
      by (symmetry; apply firstn_skipn).
    assert (Hlen : length (last_chars k root) = k)
      by (rewrite last_chars_length; lia).
    assert (Hold : (last_chars k root = [] \/
                    exists v, py_int (last_chars k root) = Some v)
                   /\ forallb int_char (last_chars k root) = true
                   /\ py_int (last_chars (length (last_chars k root) + 1) root)
                      = None).
    { rewrite Hlen. split; [eauto|]. split; [|exact Hstop].
      eapply py_int_chars. exact Hv. }
    destruct (c <? 0) eqn:Hneg; simpl.
    + intros H. simplify_eq.
      exists (drop_last k root), (last_chars k root),
        (zfill (py_str (0 + 1)) (Z.of_nat k)).
      destruct (counter_digits 0 (Z.of_nat k)); [lia|]. now repeat split.
    + apply Z.ltb_ge in Hneg.
      destruct (log10_ge log10_big (c + 1) (Z.of_nat k)); simpl;
        [destruct allow; simpl; [|discriminate]|];
        intros H; simplify_eq;
        eexists (drop_last k root), (last_chars k root), _;
        (destruct (counter_digits c (Z.of_nat k + 1)); [lia|]);
        (destruct (counter_digits c (Z.of_nat k)); [lia|]);
        repeat split; eauto; apply Hold.
  - destruct (get_int_loop_none fuel n root 0%nat base nd E) as [-> ->].
    destruct Hk' as [[_ ->] | [? _]]; [|congruence].
    intros H. simplify_eq.
    exists root, [], (zfill (py_str (0 + 1)) n).
    destruct (counter_digits 0 n); [lia|].
    repeat split; auto. now rewrite app_nil_r.
Qed.

End IncrementInvariant.

(** X5.  One step of the increment rewrites nothing but a trailing integer
    literal.  The stem is [base ++ old], where [old] is empty or parses as
    an integer and consists of literal characters only (digits, white
    space, a sign, underscores), and where the suffix one character longer
    than [old] does not parse; the result is [base], followed by a
    non-empty run of decimal digits, followed by the unchanged
    extension. *)
Theorem sub_rewrites_only_the_counter :
  forall log10_big fuel allow path n_digits p,
    _sub log10_big fuel allow path n_digits = Return p ->
    exists base old counter,
      fst (splitext path) = base ++ old
      /\ p = base ++ counter ++ snd (splitext path)
      /\ counter <> [] /\ forallb is_digit counter = true
      /\ (old = [] \/ exists v, py_int old = Some v)
      /\ forallb int_char old = true
      /\ py_int (last_chars (length old + 1) (fst (splitext path))) = None.
Proof. exact sub_shape. Qed.

Lemma sub_rewrites_only_the_counter_witness :
  exists base old counter,
    fst (splitext (py "a.d/take-07.m4a")) = base ++ old
    /\ py "a.d/take001.m4a"
       = base ++ counter ++ snd (splitext (py "a.d/take-07.m4a"))
    /\ counter <> [] /\ forallb is_digit counter = true
    /\ (old = [] \/ exists v, py_int old = Some v)
    /\ forallb int_char old = true
    /\ py_int (last_chars (length old + 1)
                 (fst (splitext (py "a.d/take-07.m4a")))) = None.
Proof.
  apply (sub_rewrites_only_the_counter (fun _ _ => false) 5 true
           (py "a.d/take-07.m4a") 3).
  vm_compute. reflexivity.
Defined.

(** X6.  Without [overwrite], the path [increment_fname] returns does not
    exist. *)
Theorem increment_fname_result_is_free :
  forall log10_big fuel exists_ path n_digits allow p,
    increment_fname log10_big fuel exists_ path n_digits false allow = Return p ->
    exists_ p = false.
Proof.
  intros lg fuel ex path n allow p. unfold increment_fname.
  apply increment_loop_free.
Qed.

Lemma increment_fname_result_is_free_witness :
  (fun p => bool_decide (p = py "a/b07.m4a")
            || bool_decide (p = py "a/b08.m4a")) (py "a/b09.m4a") = false.
Proof.
  apply (increment_fname_result_is_free (fun _ _ => false) 5 _
           (py "a/b06.m4a") 2 true).
  vm_compute. reflexivity.
Defined.

Section HyphenCounter.

Variable log10_big : Z -> Z -> bool.

Lemma strip_id a t :
  is_space a = false -> ends_in_digit (a :: t) = true -> strip (a :: t) = a :: t.
Proof.
  intros Ha Hl. unfold strip. simpl lstrip at 2. rewrite Ha.
  unfold ends_in_digit in Hl. destruct (rev (a :: t)) as [|l r] eqn:E.
  - discriminate.
  - simpl lstrip. rewrite (digit_not_space l Hl). rewrite <- E.
    apply rev_involutive.
Qed.

Lemma all_digits_ends_in_digit s :
  s <> [] -> forallb is_digit s = true -> ends_in_digit s = true.
Proof.
  intros Hne Hd. unfold ends_in_digit. rewrite <- forallb_rev in Hd.
  destruct (rev s) as [|l r] eqn:E.
  - apply (f_equal (@rev ascii)) in E. rewrite rev_involutive in E.
    simpl in E. congruence.
  - simpl in Hd. now apply andb_true_iff in Hd as [Hl _].
Qed.

Lemma ends_in_digit_cons a s :
  s <> [] -> ends_in_digit (a :: s) = ends_in_digit s.
Proof.
  intros Hne. unfold ends_in_digit. simpl.
  destruct (rev s) as [|l r] eqn:E; [|reflexivity].
  apply (f_equal (@rev ascii)) in E. rewrite rev_involutive in E.
  simpl in E. congruence.
Qed.

Lemma int_digits_nonneg s : forall acc prev v,
  0 <= acc -> int_digits acc prev s = Some v -> 0 <= v.
Proof.
  induction s as [|c t IH]; intros acc prev v Ha H; simpl in H.
  - destruct prev; now simplify_eq.
  - destruct (is_digit c) eqn:Hc.
    + eapply IH; [|exact H]. unfold is_digit in Hc.
      apply andb_true_iff in Hc as [H1 _]. apply Z.leb_le in H1.
      unfold digit_val. lia.
    + destruct (Ascii.eqb c "_" && prev); [eapply IH; eauto | discriminate].
Qed.

Lemma py_int_minus digits :
  digits <> [] -> forallb is_digit digits = true ->
  exists c, 0 <= c /\ py_int ("-"%char :: digits) = Some (- c).
Proof.
  intros Hne Hd. destruct (py_int_all_digits digits Hne Hd) as [c Hc].
  rewrite (py_int_digits_eq _ Hne Hd) in Hc.
  exists c. split; [eapply int_digits_nonneg; [|exact Hc]; lia|].
  unfold py_int. rewrite strip_id; [|reflexivity|].
  - simpl. now rewrite Hc.
  - rewrite ends_in_digit_cons by assumption.
    now apply all_digits_ends_in_digit.
Qed.

(** The scan of [base ++ lit] when every non-empty suffix of [lit] parses
    and [base] ends in a character that cannot occur in a literal. *)
Lemma scan_suffix fuel n base lit v :
  ends_ordinary base = true ->
  lit <> [] ->
  (forall j, (1 <= j <= length lit)%nat ->
             exists u, py_int (last_chars j lit) = Some u) ->
  py_int lit = Some v ->
  (length lit < fuel)%nat ->
  _get_int_at_end_of_string fuel n (base ++ lit)
  = Return (Some v, base, Z.of_nat (length lit)).
Proof.
  intros Hb Hne Hsuf Hv Hf. unfold _get_int_at_end_of_string.
  assert (Hloop : forall j i f,
             (i + j = length lit)%nat -> (j < f)%nat ->
             get_int_loop f n (base ++ lit) i
             = Return (Some v, base, Z.of_nat (length lit))).
  { induction j as [|j IH]; intros i f Hij Hjf;
      (destruct f as [|f]; [lia|]); simpl.
    - assert (Hi : i = length lit) by lia. subst i.
      assert (py_int (last_chars (length lit + 1) (base ++ lit)) = None)
        as ->.
      { apply not_literal. unfold ends_ordinary in Hb.
        destruct (rev base) as [|x r] eqn:Er; [discriminate|].
        apply (f_equal (@rev ascii)) in Er. rewrite rev_involutive in Er.
        simpl in Er. subst base. unfold last_chars.
        rewrite !length_app. simpl.
        replace (length (rev r) + 1 + length lit - (length lit + 1))%nat
          with (length (rev r) + 0)%nat by lia.
        rewrite <- !app_assoc, skipn_app, Nat.add_0_r, skipn_all.
        replace (length (rev r) - length (rev r))%nat with 0%nat by lia.
        simpl. now rewrite Hb. }
      destruct (length lit =? 0)%nat eqn:E0.
      + apply Nat.eqb_eq in E0. destruct lit; [congruence | discriminate].
      + rewrite last_chars_app by lia. rewrite last_chars_whole by lia.
        now rewrite Hv, drop_last_app.
    - rewrite last_chars_app by lia.
      destruct (Hsuf (i + 1)%nat) as [u ->]; [lia|].
      apply IH; lia. }
  apply (Hloop (length lit) 0%nat fuel); lia.
Qed.

Lemma sub_hyphen fuel allow path n base digits ext :
  splitext path = (base ++ "-"%char :: digits, ext) ->
  ends_ordinary base = true ->
  digits <> [] -> forallb is_digit digits = true ->
  (length digits + 1 < fuel)%nat ->
  _sub log10_big fuel allow path n
  = Return (base ++ zfill (py "1") (Z.of_nat (length digits) + 1) ++ ext).
Proof.
  intros Hs Hb Hne Hd Hf.
  destruct (py_int_minus digits Hne Hd) as (c & Hc & Hm).
  assert (Hscan : _get_int_at_end_of_string fuel n (base ++ "-"%char :: digits)
                  = Return (Some (- c), base, Z.of_nat (length digits) + 1)).
  { replace (Z.of_nat (length digits) + 1)
      with (Z.of_nat (length ("-"%char :: digits))) by (simpl length; lia).
    apply scan_suffix; [exact Hb | discriminate | | exact Hm | simpl; lia].
    intros j Hj. simpl in Hj.
    destruct (Nat.eq_dec j (S (length digits))) as [->|Hlt].
    - rewrite last_chars_whole by (simpl; lia). eauto.
    - change ("-"%char :: digits) with (["-"%char] ++ digits).
      rewrite last_chars_app by lia.
      destruct j as [|j]; [lia|].
      replace (S j) with (j + 1)%nat by lia.
      apply py_int_all_digits.
      + now apply last_chars_nonempty.
      + now apply last_chars_all_digits. }
  unfold _sub. rewrite Hs, Hscan. simpl.
  destruct (- c <? 0) eqn:Hneg; simpl; [reflexivity|].
  apply Z.ltb_ge in Hneg. assert (c = 0) by lia. subst c.
  change (- 0) with 0. rewrite log10_ge_small by reflexivity.
  assert (Hp : (10 ^ (Z.of_nat (length digits) + 1) <=? 0 + 1) = false).
  { apply Z.leb_gt.
    assert (10 ^ 1 <= 10 ^ (Z.of_nat (length digits) + 1))
      by (apply Z.pow_le_mono_r; lia).
    lia. }
  rewrite Hp. reflexivity.
Qed.

End HyphenCounter.

(** X7.  A counter separated from the stem by a hyphen is read as a negative
    number: the hyphen and the digits are dropped and the counter restarts
    at 1, padded to the width of the hyphen and the digits together. *)
Theorem sub_restarts_hyphen_counter :
  forall log10_big fuel allow path n_digits base digits ext,
    splitext path = (base ++ "-"%char :: digits, ext) ->
    ends_ordinary base = true ->
    digits <> [] -> forallb is_digit digits = true ->
    (length digits + 1 < fuel)%nat ->
    _sub log10_big fuel allow path n_digits
    = Return (base ++ zfill (py "1") (Z.of_nat (length digits) + 1) ++ ext).
Proof. exact sub_hyphen. Qed.

Lemma sub_restarts_hyphen_counter_witness :
  _sub (fun _ _ => false) 5 true (py "take-07.m4a") 2
  = Return (py "take001.m4a").
Proof.
  apply (sub_restarts_hyphen_counter (fun _ _ => false) 5 true
           (py "take-07.m4a") 2 (py "take") (py "07") (py ".m4a")).
  - reflexivity.
  - reflexivity.
  - discriminate.
  - reflexivity.
  - simpl. lia.
Defined.

(** ** Snapshots and restoration, continued *)

Section Snapshots.

Import Pygmid2aud.

Variable e : env.

(** A session that returns leaves the device and the suppression state as
    it found them. *)
Lemma main_returns_restored a w u w' :
  main e a w = (Return u, w') ->
  output_device w' = output_device w /\ dnd w' = dnd w.
Proof.
  intros H.
  destruct (main_trace e a w _ w' H) as [[_ Ho] | (w4 & U4 & N4 & Hc)].
  - destruct (Ho u eq_refl).
  - cbv zeta in Hc.
    destruct Hc as [(_ & Ho & _) | [(_ & Ho & _) | (w6 & U6 & N6 & Hc)]];
      try discriminate.
    destruct Hc
      as [(_ & Ho & _) | [(_ & Ho & _) | [(_ & _ & Ho & _) | (U & N)]]];
      try discriminate.
    split; [|exact N]. destruct U as (D & _). rewrite D.
    destruct (dnd w); now autorewrite with world.
Qed.

(** Whatever else fails, the audio device is back when the switching
    command itself works and the session does not end on a failed print. *)
Lemma main_device_restored a w o w' :
  (forall n d, fails e n (SwitchSet d) = false) ->
  main e a w = (o, w') ->
  o <> Raise (CollaboratorError Print) ->
  output_device w' = output_device w.
Proof.
  intros Hsw H Hp.
  destruct (main_trace e a w _ w' H) as [[(D & _) _] | (w4 & U4 & N4 & Hc)].
  - exact D.
  - cbv zeta in Hc.
    destruct Hc as [(F & _) | [(_ & Ho & _) | (w6 & U6 & N6 & Hc)]];
      [rewrite Hsw in F; discriminate | congruence |].
    destruct Hc
      as [(F & _) | [(_ & Ho & _) | [(_ & _ & _ & ->) | (U & N)]]];
      [rewrite Hsw in F; discriminate | congruence | |].
    + now autorewrite with world.
    + destruct U as (D & _). rewrite D.
      destruct (dnd w); now autorewrite with world.
Qed.

End Snapshots.

(** X8.  [dnd_off] followed by [restore_dnd] on the status it returned is a
    round trip: suppression is on in between and back at its original value
    afterwards; when it was on already, neither [on] nor [off] is issued. *)
Theorem dnd_snapshot_round_trip :
  forall e w,
    (forall n, Pygmid2aud.fails e n DndStatus = false) ->
    (forall n, Pygmid2aud.fails e n DndOn = false) ->
    (forall n, Pygmid2aud.fails e n DndOff = false) ->
    exists s w1 w2,
      Pygmid2aud.dnd_off e w = (Return s, w1)
      /\ Pygmid2aud.dnd w1 = true
      /\ Pygmid2aud.restore_dnd e s w1 = (Return tt, w2)
      /\ Pygmid2aud.dnd w2 = Pygmid2aud.dnd w
      /\ Pygmid2aud.output_device w2 = Pygmid2aud.output_device w
      /\ Pygmid2aud.fs w2 = Pygmid2aud.fs w
      /\ (Pygmid2aud.dnd w = true ->
          Pygmid2aud.calls w2 = Pygmid2aud.calls w ++ [DndStatus]).
Proof.
  intros e w H1 H2 H3. do 3 eexists.
  split; [apply (run_dnd_off e w H1 H2)|].
  split; [destruct (Pygmid2aud.dnd w) eqn:D; now autorewrite with world|].
  split; [apply (run_restore_dnd e _ (Pygmid2aud.dnd w) H3)|].
  destruct (Pygmid2aud.dnd w) eqn:D; autorewrite with world;
    repeat split; auto; discriminate.
Qed.

Lemma dnd_snapshot_round_trip_witness :
  exists s w1 w2,
    Pygmid2aud.dnd_off Scenarios.calm Scenarios.desk = (Return s, w1)
    /\ Pygmid2aud.dnd w1 = true
    /\ Pygmid2aud.restore_dnd Scenarios.calm s w1 = (Return tt, w2)
    /\ Pygmid2aud.dnd w2 = false.
Proof.
  destruct (dnd_snapshot_round_trip Scenarios.calm Scenarios.desk)
    as (s & w1 & w2 & E1 & N1 & E2 & N2 & _); try (intros n; reflexivity).
  exists s, w1, w2. repeat split; assumption.
Defined.

(** X9.  Querying the device, switching to Soundflower and switching back
    to the queried device is a round trip on the audio output device. *)
Theorem device_snapshot_round_trip :
  forall e w,
    (forall n, Pygmid2aud.fails e n SwitchQuery = false) ->
    (forall n d, Pygmid2aud.fails e n (SwitchSet d) = false) ->
    (forall n, Pygmid2aud.fails e n Print = false) ->
    exists d w1 w2 w3,
      Pygmid2aud.get_existing_output_device e w = (Return d, w1)
      /\ Pygmid2aud.soundflower_on e w1 = (Return tt, w2)
      /\ Pygmid2aud.output_device w2 = Pygmid2aud.SOUNDFLOWER
      /\ Pygmid2aud.soundflower_off e d w2 = (Return tt, w3)
      /\ Pygmid2aud.output_device w3 = Pygmid2aud.output_device w
      /\ Pygmid2aud.dnd w3 = Pygmid2aud.dnd w
      /\ Pygmid2aud.fs w3 = Pygmid2aud.fs w.
Proof.
  intros e w H1 H2 H3. do 4 eexists.
  split; [apply (run_get_existing_output_device e w H1 H3)|].
  split; [apply (run_soundflower_on e _ H2 H3)|].
  split; [now autorewrite with world|].
  split; [apply (run_soundflower_off e _ _ H2 H3)|].
  now autorewrite with world.
Qed.

Lemma device_snapshot_round_trip_witness :
  exists d w1 w2 w3,
    Pygmid2aud.get_existing_output_device Scenarios.calm Scenarios.desk
    = (Return d, w1)
    /\ Pygmid2aud.soundflower_on Scenarios.calm w1 = (Return tt, w2)
    /\ Pygmid2aud.soundflower_off Scenarios.calm d w2 = (Return tt, w3)
    /\ Pygmid2aud.output_device w3 = Scenarios.BUILTIN.
Proof.
  destruct (device_snapshot_round_trip Scenarios.calm Scenarios.desk)
    as (d & w1 & w2 & w3 & E1 & E2 & _ & E3 & D3 & _);
    try (intros; reflexivity).
  exists d, w1, w2, w3. repeat split; assumption.
Defined.

(** X10.  Provided the switching command itself does not fail, the audio
    output device is the original one after every session that does not end
    on the error of a failed print, whatever else fails in it (the MIDI
    file, PyAudio, the stream, pygame, do-not-disturb, the disk, ffmpeg)
    and however it ends.  (A print is excepted because the one that
    announces the switch to Soundflower stands between that switch and the
    [try] statement.) *)
Theorem main_always_restores_device :
  forall e a w o w',
    (forall n d, Pygmid2aud.fails e n (SwitchSet d) = false) ->
    Pygmid2aud.main e a w = (o, w') ->
    o <> Raise (CollaboratorError Print) ->
    Pygmid2aud.output_device w' = Pygmid2aud.output_device w.
Proof. intros e a w o w'. apply main_device_restored. Qed.

Lemma main_always_restores_device_witness :
  Pygmid2aud.output_device
    (snd (Pygmid2aud.main Scenarios.dnd_stuck Scenarios.to_m4a Scenarios.desk))
  = Scenarios.BUILTIN.
Proof.
  apply (main_always_restores_device Scenarios.dnd_stuck Scenarios.to_m4a
           Scenarios.desk
           (fst (Pygmid2aud.main Scenarios.dnd_stuck Scenarios.to_m4a
                   Scenarios.desk))).
  - intros n d. reflexivity.
  - apply surjective_pairing.
  - vm_compute. discriminate.
Defined.

(** X11.  A session that ends normally leaves the audio output device and
    the suppression state as it found them. *)
Theorem main_return_restores_system :
  forall e a w u w',
    Pygmid2aud.main e a w = (Return u, w') ->
    Pygmid2aud.output_device w' = Pygmid2aud.output_device w
    /\ Pygmid2aud.dnd w' = Pygmid2aud.dnd w.
Proof. intros e a w u w'. apply main_returns_restored. Qed.

Lemma main_return_restores_system_witness :
  Pygmid2aud.output_device
    (snd (Pygmid2aud.main Scenarios.calm Scenarios.to_m4a Scenarios.desk))
  = Scenarios.BUILTIN
  /\ Pygmid2aud.dnd
       (snd (Pygmid2aud.main Scenarios.calm Scenarios.to_m4a Scenarios.desk))
     = false.
Proof.
  apply (main_return_restores_system Scenarios.calm Scenarios.to_m4a
           Scenarios.desk tt).
  apply pair_with_fst. vm_compute. reflexivity.
Defined.

Example dnd_stuck_session :
  fst (Pygmid2aud.main Scenarios.dnd_stuck Scenarios.to_m4a Scenarios.desk)
  = Raise (CollaboratorError DndOff).
Proof. vm_compute. reflexivity. Qed.

(** ** The noisy-app check, continued *)

Section NoisyMore.

Import PyRe Pygmid2aud.

Lemma find_open_apps_sublist e ps apps : forall l,
  find_open_apps e apps ps = Return l -> sublist l apps.
Proof.
  induction apps as [|app rest IH]; intros l H; simpl in H.
  - simplify_eq. constructor.
  - destruct (re_search_ignorecase (re_other e) app ps) as [b| |];
      simpl in H; try discriminate.
    destruct (find_open_apps e rest ps) as [r| |]; simpl in H;
      try discriminate.
    simplify_eq. destruct b; constructor; now apply IH.
Qed.

(** What is reported is what the search found. *)
Lemma find_open_apps_In e ps apps : forall l,
  find_open_apps e apps ps = Return l ->
  forall app,
    In app l
    <-> In app apps /\ re_search_ignorecase (re_other e) app ps = Return true.
Proof.
  induction apps as [|a rest IH]; intros l H app; simpl in H.
  - simplify_eq. simpl. tauto.
  - destruct (re_search_ignorecase (re_other e) a ps) as [b| |] eqn:Ea;
      simpl in H; try discriminate.
    destruct (find_open_apps e rest ps) as [r| |]; simpl in H;
      try discriminate.
    simplify_eq. specialize (IH r eq_refl app). simpl. split.
    + destruct b; simpl; intros Hin.
      * destruct Hin as [->|Hin]; [auto | apply IH in Hin; tauto].
      * apply IH in Hin. tauto.
    + intros [[->|Hin] Hs].
      * rewrite Ea in Hs. simplify_eq. now left.
      * destruct b; simpl; [right|]; apply IH; auto.
Qed.

Lemma sublist_list_filter {A} (f : A -> bool) l : sublist (List.filter f l) l.
Proof.
  induction l as [|x l IH]; simpl; [constructor|].
  destruct (f x); now constructor.
Qed.

Lemma sublist_In {A} (l k : list A) x : sublist l k -> In x l -> In x k.
Proof.
  induction 1 as [|y l k _ IH|y l k _ IH]; simpl; intros H; auto.
  destruct H as [->|H]; auto.
Qed.

Lemma lower_idempotent c : lower (lower c) = lower c.
Proof.
  destruct c as [b0 b1 b2 b3 b4 b5 b6 b7].
  destruct b0, b1, b2, b3, b4, b5, b6, b7; reflexivity.
Qed.

Lemma occurs_case_blind entry entry' text text' :
  map lower entry = map lower entry' ->
  map lower text = map lower text' ->
  occurs_ignoring_case entry text = occurs_ignoring_case entry' text'.
Proof.
  intros He Ht. unfold occurs_ignoring_case.
  assert (Hl : length text = length text').
  { rewrite <- (length_map lower text), Ht. apply length_map. }
  rewrite He, Hl.
  induction (seq 0 (S (length text'))) as [|k l IH]; simpl; [reflexivity|].
  now rewrite IH, <- !skipn_map, Ht.
Qed.

End NoisyMore.

(** X12.  The apps the noisy-app check reports are exactly the non-empty
    lines of the denylist that the search finds in the process list, in
    the order of the file.  Only empty lines are left out: a line that
    holds white space is not empty and is searched like any other. *)
Theorem open_apps_are_denylist_lines :
  forall e text ps_result open_apps,
    Pygmid2aud.find_open_apps e
      (List.filter Pygmid2aud.nonempty (Pygmid2aud.split_lines text))
      ps_result
    = Return open_apps ->
    sublist open_apps (Pygmid2aud.split_lines text)
    /\ (forall app,
          In app open_apps
          <-> In app (Pygmid2aud.split_lines text) /\ app <> []
              /\ PyRe.re_search_ignorecase (Pygmid2aud.re_other e) app
                   ps_result
                 = Return true).
Proof.
  intros e text ps l H. split.
  - apply find_open_apps_sublist in H.
    etransitivity; [exact H | apply sublist_list_filter].
  - intros app. rewrite (find_open_apps_In e ps _ l H app), filter_In.
    unfold Pygmid2aud.nonempty. destruct app; intuition congruence.
Qed.

Lemma open_apps_are_denylist_lines_witness :
  sublist [py "Zoom"] (Pygmid2aud.split_lines
                         (py "Zoom" ++ ["010"%char] ++ py "Slack"
                            ++ ["010"%char]))
  /\ ~ In (py "Slack") [py "Zoom"].
Proof.
  destruct (open_apps_are_denylist_lines Scenarios.zoom_running
              (py "Zoom" ++ ["010"%char] ++ py "Slack" ++ ["010"%char])
              (Pygmid2aud.ps_aux Scenarios.zoom_running) [py "Zoom"])
    as [H1 H2].
  - vm_compute. reflexivity.
  - split; [exact H1|]. intros [E|[]]. discriminate E.
Defined.

(** X13.  For entries without special characters the match depends neither
    on the case of the entry nor on the case of the process list. *)
Theorem noisy_match_is_case_blind :
  forall other entry entry' text text',
    PyRe.plain entry = true -> PyRe.plain entry' = true ->
    map PyRe.lower entry = map PyRe.lower entry' ->
    map PyRe.lower text = map PyRe.lower text' ->
    PyRe.re_search_ignorecase other entry text
    = PyRe.re_search_ignorecase other entry' text'.
Proof.
  intros other entry entry' text text' Hp Hp' He Ht.
  rewrite !re_search_plain by assumption.
  f_equal. now apply occurs_case_blind.
Qed.

Lemma noisy_match_is_case_blind_witness :
  PyRe.re_search_ignorecase (fun _ _ => Return false) (py "Zoom")
    (py "me 300 ZOOM.US")
  = PyRe.re_search_ignorecase (fun _ _ => Return false) (py "zOOm")
      (py "me 300 zoom.us").
Proof.
  apply noisy_match_is_case_blind; reflexivity.
Defined.

(** ** The capture thread, continued *)

Section CaptureMore.

Import Pygmid2aud.

Lemma read_loop_chunks n : forall (read : nat -> option bytes) k frames j,
  (j <= n)%nat ->
  (forall i, (i < j)%nat -> is_Some (read (k + i)%nat)) ->
  j = n \/ read (k + j)%nat = None ->
  exists chunks,
    fst (read_loop n read k frames) = frames ++ chunks
    /\ length chunks = j
    /\ (forall i, (i < j)%nat -> chunks !! i = read (k + i)%nat)
    /\ snd (read_loop n read k frames)
       = (if decide (j = n) then k + n else S (k + j))%nat.
Proof.
  induction n as [|n IH]; intros read k frames j Hj Hok Hend.
  - assert (j = 0%nat) by lia. subst j. exists []. simpl.
    rewrite app_nil_r. repeat split; auto; try (intros; lia).
  - simpl. destruct j as [|j].
    + destruct Hend as [?|Hend]; [lia|]. rewrite Nat.add_0_r in Hend.
      rewrite Hend. exists []. simpl. rewrite app_nil_r, Nat.add_0_r.
      repeat split; auto; try (intros; lia).
    + destruct (Hok 0%nat) as [chunk Hc]; [lia|].
      rewrite Nat.add_0_r in Hc. rewrite Hc.
      destruct (IH read (S k) (frames ++ [chunk]) j) as (cs & E & L & G & C).
      * lia.
      * intros i Hi. replace (S k + i)%nat with (k + S i)%nat by lia.
        apply Hok. lia.
      * destruct Hend as [?|Hend]; [left; lia | right].
        now replace (S k + j)%nat with (k + S j)%nat by lia.
      * exists (chunk :: cs). rewrite E, <- app_assoc. simpl.
        split; [reflexivity|]. split; [lia|]. split.
        -- intros [|i] Hi; simpl; [now rewrite Nat.add_0_r|].
           rewrite G by lia. f_equal. lia.
        -- rewrite C. repeat case_decide; lia.
Qed.

End CaptureMore.

(** X14.  The capture thread appends to the frame list, in order, the
    chunks of the reads that returned; a read that raises ends the thread
    at once, the frames read so far being kept, and no later read is
    made. *)
Theorem get_frames_appends_in_order :
  forall (read : nat -> option Pygmid2aud.bytes) rate dur frames_per_buffer
         frames n j,
    Pygmid2aud.frame_count rate dur frames_per_buffer 1 = Return n ->
    (j <= Z.to_nat n)%nat ->
    (forall i, (i < j)%nat -> is_Some (read i)) ->
    j = Z.to_nat n \/ read j = None ->
    exists chunks,
      fst (Pygmid2aud.get_frames read rate dur frames_per_buffer frames 1)
      = frames ++ chunks
      /\ length chunks = j
      /\ (forall i, (i < j)%nat -> chunks !! i = read i)
      /\ snd (Pygmid2aud.get_frames read rate dur frames_per_buffer frames 1)
         = (if decide (j = Z.to_nat n) then Z.to_nat n else S j).
Proof.
  intros read rate dur fpb frames n j Hn Hj Hok Hend.
  unfold Pygmid2aud.get_frames. rewrite Hn.
  apply (read_loop_chunks (Z.to_nat n) read 0 frames j); auto.
Qed.

Lemma get_frames_appends_in_order_witness :
  exists chunks,
    fst (Pygmid2aud.get_frames
           (fun k => if (k <? 3)%nat then Some (py "ab") else None)
           44100 (PyFloat.of_int 5) 1024 [py "x"] 1)
    = [py "x"] ++ chunks
    /\ length chunks = 3%nat.
Proof.
  destruct (get_frames_appends_in_order
              (fun k => if (k <? 3)%nat then Some (py "ab") else None)
              44100 (PyFloat.of_int 5) 1024 [py "x"] 259 3)
    as (chunks & E & L & _).
  - vm_compute. reflexivity.
  - vm_compute. lia.
  - intros i Hi. destruct i as [|[|[|i]]]; try lia; eexists; reflexivity.
  - right. reflexivity.
  - exists chunks. split; assumption.
Defined.

(** ** Recording and writing, continued *)

Section RecordMore.

Import Pygmid2aud.

Variable e : env.

Lemma run_record_frames w midi temp f c r fpb i sw :
  (forall n k, fails e n k = false) ->
  index_of SOUNDFLOWER (input_devices e) 0 = Some i ->
  fst (get_frames (stream_read e) r (midi_length e) fpb [] 1) <> [] ->
  get_sample_size f = Return sw ->
  exists w',
    record e midi temp f c r fpb w = (Return true, w')
    /\ fs w'
       = <[temp := File (Wav c sw r
                           (concat (fst (get_frames (stream_read e) r
                                           (midi_length e) fpb [] 1))))]>
           (fs w)
    /\ output_device w' = output_device w
    /\ dnd w' = dnd w
    /\ calls w'
       = calls w ++ [MidiLength midi; OpenStream; PygamePlay midi;
                     ProgressBar; ClosePyaudio; WriteWav temp].
Proof.
  intros Hf Hi Hfr Hs.
  unfold record, get_dur, get_pyaudio_and_stream, pygame_play, progress_bar,
    close_pyaudio, _get_soundflower_index, write_wav, put_file.
  cbv zeta. rewrite Hi, Hs.
  unfold mbind, prog_bind, modify, lift, mret, prog_ret.
  repeat (first [rewrite run_external by apply Hf
                | rewrite run_print by apply Hf]; cbv beta iota).
  rewrite bool_decide_eq_false_2 by exact Hfr. cbn [negb].
  repeat (first [rewrite run_external by apply Hf
                | rewrite run_print by apply Hf]; cbv beta iota).
  eexists. split; [reflexivity|].
  autorewrite with world. rewrite insert_insert_eq, <- !app_assoc.
  repeat split; reflexivity.
Qed.

Lemma makedirs_keeps_file d w o w' temp n :
  fs w !! temp = Some n -> makedirs e d w = (o, w') ->
  fs w' !! temp = Some n.
Proof.
  intros Ht. unfold makedirs, mbind, prog_bind, external, gets, id, raise,
    modify.
  destruct (fails e (length (calls w)) (Makedirs d)); cbn beta iota.
  - intros H. simplify_eq. now autorewrite with world.
  - destruct (bool_decide (d = [])).
    + intros H. simplify_eq. now autorewrite with world.
    + destruct (path_exists (add_call (Makedirs d) w) d) eqn:Ex;
        intros H; simplify_eq; autorewrite with world; auto.
      unfold path_exists in Ex. apply bool_decide_eq_false in Ex.
      autorewrite with world in Ex.
      rewrite lookup_insert_ne; auto. intros ->. apply Ex. eauto.
Qed.

Lemma ffmpeg_keeps_file ow src dst w o w' q n :
  fs w !! q = Some n -> dst <> q -> ffmpeg e ow src dst w = (o, w') ->
  fs w' !! q = Some n.
Proof.
  intros Ht Hne. unfold ffmpeg, mbind, prog_bind, external, gets, id, raise,
    put_file, modify.
  destruct (fails e (length (calls w)) (Ffmpeg ow src dst)); cbn beta iota.
  - intros H. simplify_eq. now autorewrite with world.
  - autorewrite with world.
    destruct (fs w !! src) as [[[|ch sw r d|c]|]|];
      try (intros H; simplify_eq; now autorewrite with world).
    destruct (negb ow && path_exists (add_call (Ffmpeg ow src dst) w) dst);
      intros H; simplify_eq; autorewrite with world; auto.
    now rewrite lookup_insert_ne.
Qed.

Lemma default_is_not_wav root : endswith (root ++ py ".m4a") (py ".wav") = false.
Proof.
  unfold endswith. apply andb_false_iff. left.
  apply bool_decide_eq_false_2.
  rewrite (last_chars_app root (py ".m4a") (length (py ".wav")))
    by (simpl; lia).
  cbv. discriminate.
Qed.

Lemma transcode_keeps_files midi output_path temp w q n o w' :
  match output_path with
  | Some out => endswith out (py ".wav") = false
  | None => True
  end ->
  fs w !! q = Some n ->
  write_to_output_path e midi output_path temp false w = (o, w') ->
  fs w' !! q = Some n.
Proof.
  intros Hw Ht H. unfold write_to_output_path in H.
  set (out := match output_path with
              | Some p => p
              | None => (splitext midi).1 ++ py ".m4a"
              end) in *.
  assert (Hout : endswith out (py ".wav") = false).
  { subst out. destruct output_path; [exact Hw | apply default_is_not_wav]. }
  rewrite Hout in H.
  unfold mbind at 1, prog_bind at 1, gets at 1, id in H.
  apply bind_inv in H as [(u & w1 & H1 & H) | [(ex & H1 & ->) | [H1 ->]]].
  - assert (Ht1 : fs w1 !! q = Some n).
    { destruct (negb (path_exists w (dirname out))).
      - eapply makedirs_keeps_file; eauto.
      - unfold mret, prog_ret in H1. now simplify_eq. }
    unfold mbind at 1, prog_bind at 1, gets at 1, id in H. cbn [negb] in H.
    unfold mbind at 1, prog_bind at 1, lift at 1 in H.
    destruct (increment_fname (math_log10_big e) (fuel e) (path_exists w1) out 2 false true)
      as [p| |] eqn:Ei; [| now simplify_eq..].
    apply increment_loop_free in Ei.
    apply bind_inv in H as [(u' & w2 & Hp & H) | [(ex & Hp & ->) | [Hp ->]]];
      unfold print in Hp; destruct (fails e (length (calls w1)) Print);
      simplify_eq; auto.
    eapply (ffmpeg_keeps_file false temp p); [| |exact H].
    + now autorewrite with world.
    + intros ->. unfold path_exists in Ei.
      apply bool_decide_eq_false in Ei. apply Ei. eauto.
  - destruct (negb (path_exists w (dirname out))).
    + eapply makedirs_keeps_file; eauto.
    + unfold mret, prog_ret in H1. now simplify_eq.
  - destruct (negb (path_exists w (dirname out))).
    + eapply makedirs_keeps_file; eauto.
    + unfold mret, prog_ret in H1. now simplify_eq.
Qed.

Lemma rfind_from_absent c s : forall i last,
  forallb (fun x => negb (Ascii.eqb x c)) s = true ->
  rfind_from c s i last = last.
Proof.
  induction s as [|x t IH]; intros i last H; simpl in *; [reflexivity|].
  apply andb_true_iff in H as [Hx Ht]. apply negb_true_iff in Hx.
  rewrite Hx. now apply IH.
Qed.

Lemma dirname_bare out :
  forallb (fun x => negb (Ascii.eqb x "/")) out = true -> dirname out = [].
Proof.
  intros H. unfold dirname, rfind. now rewrite rfind_from_absent.
Qed.

Lemma run_write_bare midi out temp ow w :
  forallb (fun x => negb (Ascii.eqb x "/")) out = true ->
  fs w !! [] = None ->
  fails e (length (calls w)) (Makedirs []) = false ->
  write_to_output_path e midi (Some out) temp ow w
  = (Raise (FileNotFoundError []), add_call (Makedirs []) w).
Proof.
  intros Hb He Hf. unfold write_to_output_path.
  rewrite (dirname_bare out Hb).
  unfold mbind at 1, prog_bind at 1, gets at 1, id.
  rewrite (path_exists_absent w [] He). cbn [negb].
  unfold makedirs.
  rewrite (run_bind_raise
             (external e (Makedirs []) ≫= λ _, _) _ w
             (FileNotFoundError []) (add_call (Makedirs []) w));
    [reflexivity|].
  now rewrite (run_bind_return _ _ _ _ _ (run_external e _ w Hf)).
Qed.

(** The session that finds a noisy app while notifications are suppressed
    already. *)
Lemma run_main_noisy_hushed a w text app open_apps :
  (forall n, fails e n DndStatus = false) ->
  (forall n, fails e n PsAux = false) ->
  (forall n, fails e n Print = false) ->
  noisy_apps_file e = Some text ->
  find_open_apps e (List.filter nonempty (split_lines text)) (ps_aux e)
  = Return (app :: open_apps) ->
  dnd w = true ->
  main e a w
  = (Raise (SystemExit 1),
     add_stdout (MsgNoisyApps (app :: open_apps))
       (add_call PsAux (add_call DndStatus w))).
Proof.
  intros H1 H3 H4 Hn Ho Hd. unfold main, get_args. cbv beta iota zeta.
  assert (Hoff : dnd_off e w = (Return (py "on"), add_call DndStatus w)).
  { unfold dnd_off.
    rewrite (run_bind_return _ _ _ _ _ (run_external e DndStatus w (H1 _))).
    unfold mbind, prog_bind, gets, modify, mret, prog_ret.
    autorewrite with world. rewrite Hd.
    now rewrite bool_decide_eq_false_2 by (cbv; discriminate). }
  rewrite (run_bind_return _ _ _ _ _ Hoff).
  now rewrite (run_bind_raise _ _ _ _ _
                 (run_check_noisy e _ text app open_apps Hn H3 H4 Ho)).
Qed.

End RecordMore.

(** X15.  When no collaborator fails, Soundflower is among the input
    devices and the capture thread delivered at least one frame, [record]
    returns [True] and the temporary file holds the frames, concatenated in
    order, with the channel count, sample width and rate passed; nothing
    else on disk changes, nor does the device or the suppression state. *)
Theorem record_writes_captured_frames :
  forall e w midi temp format_ channels rate frames_per_buffer i sampwidth,
    (forall n k, Pygmid2aud.fails e n k = false) ->
    Pygmid2aud.index_of Pygmid2aud.SOUNDFLOWER (Pygmid2aud.input_devices e) 0
    = Some i ->
    fst (Pygmid2aud.get_frames (Pygmid2aud.stream_read e) rate
           (Pygmid2aud.midi_length e) frames_per_buffer [] 1) <> [] ->
    Pygmid2aud.get_sample_size format_ = Return sampwidth ->
    exists w',
      Pygmid2aud.record e midi temp format_ channels rate frames_per_buffer w
      = (Return true, w')
      /\ Pygmid2aud.fs w'
         = <[temp := Pygmid2aud.File
                       (Pygmid2aud.Wav channels sampwidth rate
                          (concat
                             (fst (Pygmid2aud.get_frames
                                     (Pygmid2aud.stream_read e) rate
                                     (Pygmid2aud.midi_length e)
                                     frames_per_buffer [] 1))))]>
             (Pygmid2aud.fs w)
      /\ Pygmid2aud.output_device w' = Pygmid2aud.output_device w
      /\ Pygmid2aud.dnd w' = Pygmid2aud.dnd w
      /\ Pygmid2aud.calls w'
         = Pygmid2aud.calls w
           ++ [MidiLength midi; OpenStream; PygamePlay midi; ProgressBar;
               ClosePyaudio; WriteWav temp].
Proof.
  intros e w midi temp f c r fpb i sw. apply run_record_frames.
Qed.

Lemma record_writes_captured_frames_witness :
  exists w',
    Pygmid2aud.record Scenarios.calm (py "/music/song.mid")
      (py "/tmp/tmpq1w2e3.wav") Pygmid2aud.FORMAT Pygmid2aud.CHANNELS
      Pygmid2aud.RATE Pygmid2aud.CHUNK Scenarios.desk
    = (Return true, w')
    /\ Pygmid2aud.output_device w' = Scenarios.BUILTIN.
Proof.
  destruct (record_writes_captured_frames Scenarios.calm Scenarios.desk
              (py "/music/song.mid") (py "/tmp/tmpq1w2e3.wav")
              Pygmid2aud.FORMAT Pygmid2aud.CHANNELS Pygmid2aud.RATE
              Pygmid2aud.CHUNK 1%nat 2)
    as (w' & E & _ & D & _).
  - intros n k. reflexivity.
  - reflexivity.
  - vm_compute. discriminate.
  - reflexivity.
  - exists w'. split; assumption.
Defined.

(** X16.  On the transcoding branch without [overwrite] (any output path
    not ending in ".wav", the default one included), every file that was on
    disk is still there, unchanged, afterwards, however the conversion
    ends: neither an earlier output nor the temporary file with the raw
    capture is overwritten or removed. *)
Theorem transcoding_keeps_existing_files :
  forall e midi output_path temp w q n o w',
    match output_path with
    | Some out => endswith out (py ".wav") = false
    | None => True
    end ->
    Pygmid2aud.fs w !! q = Some n ->
    Pygmid2aud.write_to_output_path e midi output_path temp false w = (o, w') ->
    Pygmid2aud.fs w' !! q = Some n.
Proof.
  intros e midi output_path temp w q n o w'. apply transcode_keeps_files.
Qed.

Lemma transcoding_keeps_existing_files_witness :
  Pygmid2aud.fs
    (snd (Pygmid2aud.write_to_output_path Scenarios.calm
            (py "/music/song.mid") None (py "/tmp/tmpq1w2e3.wav") false
            Scenarios.captured))
  !! py "/tmp/tmpq1w2e3.wav"
  = Some (Pygmid2aud.File (Pygmid2aud.Wav 2 2 44100 (py "abab"))).
Proof.
  apply (transcoding_keeps_existing_files Scenarios.calm
           (py "/music/song.mid") None (py "/tmp/tmpq1w2e3.wav")
           Scenarios.captured (py "/tmp/tmpq1w2e3.wav") _
           (fst (Pygmid2aud.write_to_output_path Scenarios.calm
                   (py "/music/song.mid") None (py "/tmp/tmpq1w2e3.wav")
                   false Scenarios.captured))).
  - exact I.
  - vm_compute. reflexivity.
  - apply surjective_pairing.
Defined.

(** X17.  An output path without directory part cannot be written: its
    directory name is empty, does not exist, and [os.makedirs] refuses it,
    so that [write_to_output_path] raises before moving or converting
    anything. *)
Theorem bare_output_name_fails :
  forall e midi out temp overwrite w,
    forallb (fun x => negb (Ascii.eqb x "/")) out = true ->
    Pygmid2aud.fs w !! [] = None ->
    Pygmid2aud.fails e (length (Pygmid2aud.calls w)) (Makedirs []) = false ->
    Pygmid2aud.write_to_output_path e midi (Some out) temp overwrite w
    = (Raise (FileNotFoundError []), Pygmid2aud.add_call (Makedirs []) w).
Proof. intros e midi out temp ow w. apply run_write_bare. Qed.

Lemma bare_output_name_fails_witness :
  Pygmid2aud.write_to_output_path Scenarios.calm (py "song.mid")
    (Some (py "song.m4a")) (py "/tmp/tmpq1w2e3.wav") false
    Scenarios.captured
  = (Raise (FileNotFoundError []),
     Pygmid2aud.add_call (Makedirs []) Scenarios.captured).
Proof.
  apply bare_output_name_fails.
  - reflexivity.
  - vm_compute. reflexivity.
  - reflexivity.
Defined.

(** X18.  When notifications are suppressed already, the exit on a noisy
    app leaves the system exactly as found: suppression stays on as it was,
    the device and the disk are untouched, and only [do-not-disturb status]
    and [ps aux] have been run. *)
Theorem noisy_exit_when_suppressed_already :
  forall e a w text app open_apps,
    (forall n, Pygmid2aud.fails e n DndStatus = false) ->
    (forall n, Pygmid2aud.fails e n PsAux = false) ->
    (forall n, Pygmid2aud.fails e n Print = false) ->
    Pygmid2aud.noisy_apps_file e = Some text ->
    Pygmid2aud.find_open_apps e
      (List.filter Pygmid2aud.nonempty (Pygmid2aud.split_lines text))
      (Pygmid2aud.ps_aux e)
    = Return (app :: open_apps) ->
    Pygmid2aud.dnd w = true ->
    exists w',
      Pygmid2aud.main e a w = (Raise (SystemExit 1), w')
      /\ Pygmid2aud.dnd w' = Pygmid2aud.dnd w
      /\ Pygmid2aud.output_device w' = Pygmid2aud.output_device w
      /\ Pygmid2aud.fs w' = Pygmid2aud.fs w
      /\ Pygmid2aud.calls w' = Pygmid2aud.calls w ++ [DndStatus; PsAux]
      /\ Pygmid2aud.stdout w'
         = Pygmid2aud.stdout w
           ++ [Pygmid2aud.MsgNoisyApps (app :: open_apps)].
Proof.
  intros e a w text app open_apps H1 H2 H3 Hn Ho Hd. eexists.
  split; [apply (run_main_noisy_hushed e a w text app open_apps); auto|].
  autorewrite with world. rewrite <- app_assoc. repeat split; reflexivity.
Qed.

Lemma noisy_exit_when_suppressed_already_witness :
  exists w',
    Pygmid2aud.main Scenarios.zoom_running Scenarios.to_m4a Scenarios.hushed
    = (Raise (SystemExit 1), w')
    /\ Pygmid2aud.dnd w' = true
    /\ Pygmid2aud.calls w' = [DndStatus; PsAux].
Proof.
  destruct (noisy_exit_when_suppressed_already Scenarios.zoom_running
              Scenarios.to_m4a Scenarios.hushed
              (py "Zoom" ++ ["010"%char] ++ py "Slack" ++ ["010"%char])
              (py "Zoom") [])
    as (w' & E & N & _ & _ & C & _).
  - intros n. reflexivity.
  - intros n. reflexivity.
  - intros n. reflexivity.
  - reflexivity.
  - vm_compute. reflexivity.
  - reflexivity.
  - exists w'. repeat split; assumption.
Defined.

Section BlankDenylist.

Import Pygmid2aud.

Lemma split_lines_blank text :
  forallb (fun c => Ascii.eqb c "010") text = true ->
  List.filter nonempty (split_lines text) = [].
Proof.
  induction text as [|c t IH]; [reflexivity|]. simpl. intros H.
  apply andb_true_iff in H as [Hc Ht]. rewrite Hc. simpl. now apply IH.
Qed.

Lemma run_check_blank e w text :
  noisy_apps_file e = Some text ->
  forallb (fun c => Ascii.eqb c "010") text = true ->
  (forall n, fails e n PsAux = false) ->
  check_for_noisy_apps e w = (Return tt, add_call PsAux w).
Proof.
  intros Hn Hb Hf. apply (run_check_clear e w text Hn Hf).
  now rewrite (split_lines_blank text Hb).
Qed.

End BlankDenylist.

(** A line that holds a single space, on the contrary, is kept, and is
    found in any process list that contains a space. *)
Example space_line_blocks :
  Pygmid2aud.find_open_apps Scenarios.calm
    (List.filter Pygmid2aud.nonempty (Pygmid2aud.split_lines (py " ")))
    (Pygmid2aud.ps_aux Scenarios.calm)
  = Return [py " "].
Proof. vm_compute. reflexivity. Qed.

(** X19.  A denylist that is empty or holds nothing but newline characters
    (all its lines are empty) never stops a session: the check runs
    [ps aux] and returns, whatever is running. *)
Theorem blank_denylist_never_blocks :
  forall e w text,
    Pygmid2aud.noisy_apps_file e = Some text ->
    forallb (fun c => Ascii.eqb c "010") text = true ->
    (forall n, Pygmid2aud.fails e n PsAux = false) ->
    Pygmid2aud.check_for_noisy_apps e w
    = (Return tt, Pygmid2aud.add_call PsAux w).
Proof. exact run_check_blank. Qed.

Lemma blank_denylist_never_blocks_witness :
  Pygmid2aud.check_for_noisy_apps
    (Pygmid2aud.mkEnv (Some ["010"%char; "010"%char])
       (Pygmid2aud.ps_aux Scenarios.zoom_running)
       (fun _ _ => Raise (Exception "re.error")) (PyFloat.of_int 5) []
       (fun _ => None) (py "/tmp/t") (fun _ _ => false) (fun _ _ => false)
       8)
    Scenarios.desk
  = (Return tt, Pygmid2aud.add_call PsAux Scenarios.desk).
Proof.
  apply (blank_denylist_never_blocks _ _ ["010"%char; "010"%char]);
    reflexivity.
Defined.

(** X20.  On every path whose stem is a non-empty run of decimal digits
    (a year, a track number), [increment_fname] returns for no amount of
    fuel, whatever the disk holds and whatever the other arguments are. *)
Theorem increment_fname_diverges_on_digit_stems :
  forall log10_big fuel exists_ path n_digits overwrite allow root ext,
    splitext path = (root, ext) ->
    root <> [] ->
    forallb is_digit root = true ->
    increment_fname log10_big fuel exists_ path n_digits overwrite allow = OutOfFuel.
Proof.
  intros lg fuel ex path n ow allow root ext. apply increment_all_digits.
Qed.

Lemma increment_fname_diverges_on_digit_stems_witness :
  increment_fname (fun _ _ => false) 1000 (fun _ => false) (py "2024.m4a") 2
    false true
  = OutOfFuel.
Proof.
  apply (increment_fname_diverges_on_digit_stems (fun _ _ => false) 1000
           (fun _ => false) (py "2024.m4a") 2 false true (py "2024")
           (py ".m4a")).
  - reflexivity.
  - discriminate.
  - reflexivity.
Defined.
